(** * The Beautiful Game Oracle: feature derivation, fixture lookup and cache

    A shallow embedding of [analysis/build_league_results_v2.py] and
    [pipelines/feature_store.py].  Data frames are lists of rows in frame
    order; a column is a projection of the row record.  Floating-point
    columns are idealised as exact rationals ([Q]); a missing cell (pandas
    NaN) is [None]. *)

From Stdlib Require Import Ascii String.
From stdpp Require Import gmap strings list sorting pretty.
From Stdlib Require Import QArith Qabs Qminmax Lqa Lia.
From Stdlib Require OrderedTypeEx.

Local Open Scope Q_scope.
Local Open Scope Z_scope.
Local Open Scope nat_scope.

#[global] Instance Q_eq_dec : EqDecision Q.
Proof. solve_decision. Defined.

(** ** A small pandas vocabulary *)

Section Pandas.
Context {A K : Type} `{EqDecision K}.

(** [Series.shift()]: every value moves one position down, the first
    position becomes missing, the length is kept. *)
Definition shift {V : Type} (s : list (option V)) : list (option V) :=
  match s with
  | [] => []
  | _ :: _ => None :: removelast s
  end.

(** Rows of [df] in the group of [k], in frame order. *)
Definition group_of (key : A -> K) (k : K) (df : list A) : list A :=
  filter (fun r => key r = k) df.

(** [groupby(key).cumcount()]: the number of earlier rows of the frame
    that carry the same key. *)
Definition cumcount (key : A -> K) (df : list A) : list nat :=
  imap (fun i r => length (group_of key (key r) (take i df))) df.

(** [groupby(key)[col].transform(f)]: [f] is run once per group on the
    group's column, and each row receives the entry of its own group at its
    own position inside the group. *)
Definition groupby_transform {V W : Type} (key : A -> K) (col : A -> V)
    (f : list V -> list (option W)) (df : list A) : list (option W) :=
  imap (fun i r =>
          let k := length (group_of key (key r) (take i df)) in
          default None (f (col <$> group_of key (key r) df) !! k)) df.
End Pandas.

(** The observations of a window, missing cells skipped. *)
Definition present {V : Type} (s : list (option V)) : list V := omap id s.

Definition Qsum (l : list Q) : Q := foldr Qplus 0%Q l.

(** The window of [rolling(window=w)] that ends at position [k]: positions
    [k - w + 1 .. k], cut at the start of the series. *)
Definition window_at {V : Type} (w k : nat) (s : list V) : list V :=
  drop (k + 1 - w) (take (k + 1) s).

(** [rolling(window=w, min_periods=mp).sum()]. *)
Definition rolling_sum (w mp : nat) (s : list (option Q)) : list (option Q) :=
  imap (fun k _ =>
          let obs := present (window_at w k s) in
          if decide (mp <= length obs) then Some (Qsum obs) else None) s.

Definition Qmean (l : list Q) : Q := (Qsum l / inject_Z (Z.of_nat (length l)))%Q.

(** [rolling(window=w, min_periods=mp).mean()]. *)
Definition rolling_mean (w mp : nat) (s : list (option Q)) : list (option Q) :=
  imap (fun k _ =>
          let obs := present (window_at w k s) in
          if decide (mp <= length obs) then Some (Qmean obs) else None) s.

(** The [w] most recent entries of a history (all of it when shorter). *)
Definition lastn {V : Type} (w : nat) (l : list V) : list V :=
  drop (length l - w) l.

Definition fillna {V : Type} (d : V) (c : option V) : V := default d c.

Definition nan_lift2 (op : Q -> Q -> Q) (x y : option Q) : option Q :=
  match x, y with
  | Some a, Some b => Some (op a b)
  | _, _ => None
  end.

Definition Qclip (lo hi x : Q) : Q := Qmin (Qmax x lo) hi.

(** ** analysis/build_league_results_v2.py *)

Module Matches.
(** A row of the version-1 match table, as [load_v1] returns it. *)
Record row := {
  match_id : Z;
  match_datetime_utc : Z;
  season : Z;
  home_team_id : Z;
  home_team_name : string;
  away_team_id : Z;
  away_team_name : string;
  home_goals : option Q;
  away_goals : option Q;
  home_xg : option Q;
  away_xg : option Q;
  forecast_home_win : option Q;
  forecast_draw : option Q;
  forecast_away_win : option Q;
  match_outcome_code : string;
}.
End Matches.

Module Long.
(** The columns of [home_df] and [away_df], before the derived ones. *)
Record base := {
  match_id : Z;
  match_datetime_utc : Z;
  season : Z;
  team_id : Z;
  team_name : string;
  points : Z;
  goals_for : option Q;
  goals_against : option Q;
  xg_for : option Q;
  xg_against : option Q;
  is_home : Z;
}.

(** A row of [long_df] as [compute_team_view] returns it. *)
Record row := {
  cols : base;
  goal_diff : option Q;
  xg_diff : option Q;
  match_number : nat;
  rest_days : option Q;
}.
End Long.

Coercion Long.cols : Long.row >-> Long.base.

Definition outcome_points (code : string) : Z * Z :=
  if String.eqb code "H" then (3, 0)%Z
  else if String.eqb code "A" then (0, 3)%Z
  else (1, 1)%Z.

Definition home_row (m : Matches.row) : Long.base :=
  {| Long.match_id := Matches.match_id m;
     Long.match_datetime_utc := Matches.match_datetime_utc m;
     Long.season := Matches.season m;
     Long.team_id := Matches.home_team_id m;
     Long.team_name := Matches.home_team_name m;
     Long.points := fst (outcome_points (Matches.match_outcome_code m));
     Long.goals_for := Matches.home_goals m;
     Long.goals_against := Matches.away_goals m;
     Long.xg_for := Matches.home_xg m;
     Long.xg_against := Matches.away_xg m;
     Long.is_home := 1 |}.

Definition away_row (m : Matches.row) : Long.base :=
  {| Long.match_id := Matches.match_id m;
     Long.match_datetime_utc := Matches.match_datetime_utc m;
     Long.season := Matches.season m;
     Long.team_id := Matches.away_team_id m;
     Long.team_name := Matches.away_team_name m;
     Long.points := snd (outcome_points (Matches.match_outcome_code m));
     Long.goals_for := Matches.away_goals m;
     Long.goals_against := Matches.home_goals m;
     Long.xg_for := Matches.away_xg m;
     Long.xg_against := Matches.home_xg m;
     Long.is_home := 0 |}.

Definition home_df (matches : list Matches.row) : list Long.base := home_row <$> matches.
Definition away_df (matches : list Matches.row) : list Long.base := away_row <$> matches.

(** The sort key of [sort_values(["team_id", "match_datetime_utc"])]. *)
Definition key_le (a b : Long.base) : Prop :=
  (Long.team_id a < Long.team_id b)%Z \/
  (Long.team_id a = Long.team_id b /\
   (Long.match_datetime_utc a <= Long.match_datetime_utc b)%Z).

#[global] Instance key_le_dec : RelDecision key_le.
Proof. intros a b. unfold key_le. apply _. Defined.

(** Stable insertion: a row goes in front of the first row whose key is not
    smaller, so rows with equal keys keep their frame order. *)
Fixpoint insert_row (x : Long.base) (l : list Long.base) : list Long.base :=
  match l with
  | [] => [x]
  | y :: l' => if decide (key_le x y) then x :: y :: l' else y :: insert_row x l'
  end.

Definition sort_values (df : list Long.base) : list Long.base :=
  foldr insert_row [] df.

(** [groupby("team_id")["match_datetime_utc"].diff()] in days. *)
Definition rest_days_of (sorted : list Long.base) (i : nat) (r : Long.base) : option Q :=
  match last (group_of Long.team_id (Long.team_id r) (take i sorted)) with
  | Some p => Some ((Long.match_datetime_utc r - Long.match_datetime_utc p)%Z # 86400)%Q
  | None => None
  end.

Definition compute_team_view (matches : list Matches.row) : list Long.row :=
  let long_df := sort_values (home_df matches ++ away_df matches) in
  imap (fun i r =>
          {| Long.cols := r;
             Long.goal_diff := nan_lift2 Qminus (Long.goals_for r) (Long.goals_against r);
             Long.xg_diff := nan_lift2 Qminus (Long.xg_for r) (Long.xg_against r);
             Long.match_number := length (group_of Long.team_id (Long.team_id r) (take i long_df));
             Long.rest_days := rest_days_of long_df i r |}) long_df.

(** The frame [long_df] right after the sort, before the derived columns. *)
Definition long_frame (matches : list Matches.row) : list Long.base :=
  sort_values (home_df matches ++ away_df matches).

(** The team appearances of the table that kicked off strictly before [r]
    did: the reading of "earlier appearances" by kickoff time. *)
Definition earlier_appearances (matches : list Matches.row) (r : Long.base)
    : list Long.base :=
  filter (fun a : Long.base =>
            Long.team_id a = Long.team_id r /\
            (Long.match_datetime_utc a < Long.match_datetime_utc r)%Z)
    (home_df matches ++ away_df matches).

Definition kickoff_key (a : Long.base) : Z * Z :=
  (Long.team_id a, Long.match_datetime_utc a).

(** *** add_rolling_features *)

Module Rolling.
(** A row of [long_df] after [add_rolling_features]: the columns of the
    team view with their missing cells zero-filled, and the added columns
    under their column names. *)
Record row := {
  long : Long.row;
  added : gmap string Q;
}.
End Rolling.

Definition feature_specs : list (string * (Long.row -> option Q)) :=
  [ ("points", fun r : Long.row => Some (inject_Z (Long.points r)));
    ("goals_for", fun r : Long.row => Long.goals_for r);
    ("goals_against", fun r : Long.row => Long.goals_against r);
    ("goal_diff", Long.goal_diff);
    ("xg_for", fun r : Long.row => Long.xg_for r);
    ("xg_against", fun r : Long.row => Long.xg_against r);
    ("xg_diff", Long.xg_diff) ].

Definition windows : list nat := [3; 5; 10].

Definition new_col (col : string) (window : nat) : string :=
  col +:+ "_last_" +:+ pretty window.

(** [grouped[col].transform(lambda s: s.shift().rolling(window=w, min_periods=1).sum())] *)
Definition last_col (val : Long.row -> option Q) (w : nat) (long_df : list Long.row)
    : list (option Q) :=
  groupby_transform (fun r : Long.row => Long.team_id r) val
    (fun s => rolling_sum w 1 (shift s)) long_df.

Definition rolling_cols (long_df : list Long.row) : list (string * list (option Q)) :=
  spec ← feature_specs;
  w ← windows;
  [(new_col spec.1 w, last_col spec.2 w long_df)].

Definition rest_days_prev (long_df : list Long.row) : list Q :=
  fillna 0%Q <$>
    groupby_transform (fun r : Long.row => Long.team_id r) Long.rest_days shift long_df.

Definition rest_cols (long_df : list Long.row) : list (string * list (option Q)) :=
  let prev := rest_days_prev long_df in
  [ ("rest_days_prev", Some <$> prev);
    ("rest_days_capped", (fun x => Some (Qmin x 28)) <$> prev);
    ("rest_reset_flag", (fun x => Some (if Qlt_le_dec 35 x then 1%Q else 0%Q)) <$> prev) ].

(** [points_last_w / (3 * match_number.clip(upper=w)).replace(0, nan)] *)
Definition points_pct_col (w : nat) (long_df : list Long.row) : list (option Q) :=
  zip_with (fun (r : Long.row) p =>
              let denom := 3 * (Long.match_number r `min` w) in
              if decide (denom = 0) then None
              else (fun x => x / inject_Z (Z.of_nat denom))%Q <$> p)
    long_df
    (last_col (fun r : Long.row => Some (inject_Z (Long.points r))) w long_df).

Definition pct_cols (long_df : list Long.row) : list (string * list (option Q)) :=
  (fun w => ("points_pct_last_" +:+ pretty w, points_pct_col w long_df)) <$> windows.

Definition fillna_row (r : Long.row) : Long.row :=
  let b : Long.base := r in
  {| Long.cols :=
       {| Long.match_id := Long.match_id b;
          Long.match_datetime_utc := Long.match_datetime_utc b;
          Long.season := Long.season b;
          Long.team_id := Long.team_id b;
          Long.team_name := Long.team_name b;
          Long.points := Long.points b;
          Long.goals_for := Some (fillna 0%Q (Long.goals_for b));
          Long.goals_against := Some (fillna 0%Q (Long.goals_against b));
          Long.xg_for := Some (fillna 0%Q (Long.xg_for b));
          Long.xg_against := Some (fillna 0%Q (Long.xg_against b));
          Long.is_home := Long.is_home b |};
     Long.goal_diff := Some (fillna 0%Q (Long.goal_diff r));
     Long.xg_diff := Some (fillna 0%Q (Long.xg_diff r));
     Long.match_number := Long.match_number r;
     Long.rest_days := Some (fillna 0%Q (Long.rest_days r)) |}.

Definition added_cols (long_df : list Long.row) : list (string * list (option Q)) :=
  rolling_cols long_df ++ rest_cols long_df ++ pct_cols long_df.

(** The cell of an added column at row [i], after the closing
    [long_df.fillna(0, inplace=True)]. *)
Definition cell_at (i : nat) (c : string * list (option Q)) : string * Q :=
  (c.1, fillna 0%Q (default None (c.2 !! i))).

(** The prior appearances of team [t] at position [i] of the frame: the rows
    of [t] in front of that position. *)
Definition prior_rows (long_df : list Long.row) (i : nat) (t : Z) : list Long.row :=
  group_of (fun x : Long.row => Long.team_id x) t (take i long_df).

Definition added_names : list string :=
  Eval vm_compute in (added_cols []).*1.

Coercion Rolling.long : Rolling.row >-> Long.row.

Definition add_rolling_features (long_df : list Long.row) : list Rolling.row :=
  imap (fun i r =>
          {| Rolling.long := fillna_row r;
             Rolling.added := list_to_map (cell_at i <$> added_cols long_df) |})
    long_df.


(** *** add_market_features *)

Module Market.
(** The market block of a fixture row.  The entropy and the log-odds
    columns are logarithms of these probabilities and are left out: they
    have no rational value. *)
Record row := {
  forecast_home_win : option Q;
  forecast_draw : option Q;
  forecast_away_win : option Q;
  market_home_edge : option Q;
  market_expected_points_home : option Q;
  market_expected_points_away : option Q;
  market_max_prob : option Q;
}.
End Market.

Definition epsilon : Q := (1 # 1000000)%Q.

(** [df[col].clip(epsilon, 1 - epsilon)]; a missing cell stays missing. *)
Definition clip_forecast (c : option Q) : option Q :=
  Qclip epsilon (1 - epsilon)%Q <$> c.

(** [max(axis=1)], missing cells skipped. *)
Definition row_max (cells : list (option Q)) : option Q :=
  match present cells with
  | [] => None
  | x :: l => Some (foldr Qmax x l)
  end.

Definition add_market_features_row (m : Matches.row) : Market.row :=
  let h := clip_forecast (Matches.forecast_home_win m) in
  let d := clip_forecast (Matches.forecast_draw m) in
  let a := clip_forecast (Matches.forecast_away_win m) in
  let total := nan_lift2 Qplus (nan_lift2 Qplus h d) a in
  let h := nan_lift2 Qdiv h total in
  let d := nan_lift2 Qdiv d total in
  let a := nan_lift2 Qdiv a total in
  {| Market.forecast_home_win := h;
     Market.forecast_draw := d;
     Market.forecast_away_win := a;
     Market.market_home_edge := nan_lift2 Qminus h a;
     Market.market_expected_points_home :=
       nan_lift2 Qplus ((fun x => 3 * x)%Q <$> h) d;
     Market.market_expected_points_away :=
       nan_lift2 Qplus ((fun x => 3 * x)%Q <$> a) d;
     Market.market_max_prob := row_max [h; d; a] |}.

Definition add_market_features (df : list Matches.row) : list Market.row :=
  add_market_features_row <$> df.

(** The three forecast cells of a row hold probabilities that sum to one
    and lie strictly between 0 and 1. *)
Definition normalized (r : Market.row) : Prop :=
  exists h d a : Q,
    Market.forecast_home_win r = Some h /\
    Market.forecast_draw r = Some d /\
    Market.forecast_away_win r = Some a /\
    (h + d + a == 1)%Q /\
    (0 < h < 1)%Q /\ (0 < d < 1)%Q /\ (0 < a < 1)%Q.

(** The same with a tolerance on the sum: the three forecast cells hold
    values whose sum is within [tol] of one, each strictly between 0
    and 1. *)
Definition normalized_within (tol : Q) (r : Market.row) : Prop :=
  exists h d a : Q,
    Market.forecast_home_win r = Some h /\
    Market.forecast_draw r = Some d /\
    Market.forecast_away_win r = Some a /\
    (Qabs (h + d + a - 1) <= tol)%Q /\
    (0 < h < 1)%Q /\ (0 < d < 1)%Q /\ (0 < a < 1)%Q.

(** ** pipelines/feature_store.py *)

(** *** Strings *)

Definition lower_ascii (c : ascii) : ascii :=
  let n := nat_of_ascii c in
  if (65 <=? n) && (n <=? 90) then ascii_of_nat (n + 32) else c.

(** [str.lower()] on the ASCII letters; other bytes are kept. *)
Fixpoint lower (s : string) : string :=
  match s with
  | EmptyString => EmptyString
  | String c s' => String (lower_ascii c) (lower s')
  end.

Definition is_space (c : ascii) : bool :=
  let n := nat_of_ascii c in
  ((9 <=? n) && (n <=? 13)) || ((28 <=? n) && (n <=? 32)).

Fixpoint lstrip (s : string) : string :=
  match s with
  | EmptyString => EmptyString
  | String c s' => if is_space c then lstrip s' else s
  end.

Fixpoint rstrip (s : string) : string :=
  match s with
  | EmptyString => EmptyString
  | String c s' =>
      match rstrip s' with
      | EmptyString => if is_space c then EmptyString else String c EmptyString
      | t => String c t
      end
  end.

Definition strip (s : string) : string := rstrip (lstrip s).

Definition _normalize_name (value : string) : string := lower (strip value).

(** Python compares strings code point by code point. *)
Definition str_max (a b : string) : string :=
  if String.leb a b then b else a.

(** *** Cells and rows of the dataset *)

(** A numeric cell of the loaded CSV: an integer, a float, a boolean, or a
    missing value. *)
Inductive cell :=
  | CInt (z : Z)
  | CFloat (q : Q)
  | CBool (b : bool)
  | CNaN.

(** [float(value)] of a cell that [pd.isna] does not reject; [None] is the
    missing cell. *)
Definition numeric (c : cell) : option Q :=
  match c with
  | CInt z => Some (inject_Z z)
  | CFloat q => Some q
  | CBool b => Some (if b then 1%Q else 0%Q)
  | CNaN => None
  end.

Definition isna (value : option cell) : bool :=
  match value ≫= numeric with
  | Some _ => false
  | None => true
  end.

Module Fixture.
(** A row of [FeatureStore.df]: the identifying columns, and the numeric
    columns under their names ([row.get(name)] is [cells !! name]). *)
Record row := {
  match_id : Z;
  season : string;
  home_team_name : string;
  away_team_name : string;
  cells : gmap string cell;
}.
End Fixture.

Record FixtureFeatures := {
  ff_match_id : Z;
  ff_home_team : string;
  ff_away_team : string;
  ff_season : string;
  ff_features : gmap string Q;
}.

Inductive FeatureOrigin := DIRECT | DERIVED | UNKNOWN.

#[global] Instance FeatureOrigin_eq_dec : EqDecision FeatureOrigin.
Proof. solve_decision. Defined.

Inductive exn :=
  | ValueError (msg : string)
  | JSONDecodeError.

(** *** FeatureCache *)

(** [json.dumps] and [json.loads] on a dictionary of floats; [json_loads]
    answers [None] where Python raises. *)
Class JsonCodec := {
  json_dumps : gmap string Q -> string;
  json_loads : string -> option (gmap string Q);
}.

Module FeatureCache.
(** The table [feature_cache]: the primary key
    (dataset_version, season, home, away) and the other three columns. *)
Record entry := {
  match_id : Z;
  dataset_mtime : Q;
  payload : string;
}.

Definition key : Type := string * string * string * string.

Definition tolerance : Q := (1 # 1000000)%Q.

Section Ops.
Context `{JsonCodec}.

Definition get (db : gmap key entry) (dataset_version season home away : string)
    (mtime : Q) : exn + option (gmap string Q) :=
  match db !! (dataset_version, season, home, away) with
  | None => inr None
  | Some row =>
      if Qlt_le_dec tolerance (Qabs (dataset_mtime row - mtime)) then inr None
      else match json_loads (payload row) with
           | Some features => inr (Some features)
           | None => inl JSONDecodeError
           end
  end.

Definition set (db : gmap key entry) (dataset_version season home away : string)
    (mtime : Q) (match_id : Z) (features : gmap string Q) : gmap key entry :=
  <[(dataset_version, season, home, away) :=
      {| match_id := match_id;
         dataset_mtime := mtime;
         payload := json_dumps features |}]> db.
End Ops.
End FeatureCache.

(** *** FeatureStore *)

Module FeatureStore.
(** The fields of a store that the lookups read and write.  [warnings] is
    the output of [LOGGER.warning], oldest first: the feature name and the
    dataset version of each record. *)
Record t := {
  dataset_version : string;
  dataset_mtime : Q;
  df : list Fixture.row;
  required_features : list string;
  _baseline_columns : gset string;
  _derived_columns : gset string;
  _unknown_features_logged : gset string;
  cache : option (gmap FeatureCache.key FeatureCache.entry);
  warnings : list (string * string);
}.
End FeatureStore.

Definition with_cache (st : FeatureStore.t)
    (db : gmap FeatureCache.key FeatureCache.entry) : FeatureStore.t :=
  {| FeatureStore.dataset_version := FeatureStore.dataset_version st;
     FeatureStore.dataset_mtime := FeatureStore.dataset_mtime st;
     FeatureStore.df := FeatureStore.df st;
     FeatureStore.required_features := FeatureStore.required_features st;
     FeatureStore._baseline_columns := FeatureStore._baseline_columns st;
     FeatureStore._derived_columns := FeatureStore._derived_columns st;
     FeatureStore._unknown_features_logged := FeatureStore._unknown_features_logged st;
     FeatureStore.cache := Some db;
     FeatureStore.warnings := FeatureStore.warnings st |}.

(** [LOGGER.warning(...)] followed by [self._unknown_features_logged.add(feature)]. *)
Definition warn_unknown (st : FeatureStore.t) (feature : string) : FeatureStore.t :=
  {| FeatureStore.dataset_version := FeatureStore.dataset_version st;
     FeatureStore.dataset_mtime := FeatureStore.dataset_mtime st;
     FeatureStore.df := FeatureStore.df st;
     FeatureStore.required_features := FeatureStore.required_features st;
     FeatureStore._baseline_columns := FeatureStore._baseline_columns st;
     FeatureStore._derived_columns := FeatureStore._derived_columns st;
     FeatureStore._unknown_features_logged :=
       {[feature]} ∪ FeatureStore._unknown_features_logged st;
     FeatureStore.cache := FeatureStore.cache st;
     FeatureStore.warnings :=
       FeatureStore.warnings st ++ [(feature, FeatureStore.dataset_version st)] |}.

Definition origin_of (st : FeatureStore.t) (feature : string) : FeatureOrigin :=
  if decide (feature ∈ FeatureStore._baseline_columns st) then DIRECT
  else if decide (feature ∈ FeatureStore._derived_columns st) then DERIVED
  else UNKNOWN.

Definition feature_lineage (st : FeatureStore.t) : gmap string FeatureOrigin :=
  foldl (fun lineage feature => <[feature := origin_of st feature]> lineage) ∅
    (FeatureStore.required_features st).

(** [df["season"].astype(int, errors="ignore").astype(str).max()], and the
    [or] of the property; the maximum of an empty column is NaN, which
    prints as "nan". *)
Definition _latest_season (df : list Fixture.row) : string :=
  match Fixture.season <$> df with
  | [] => "nan"
  | s :: l => foldl str_max s l
  end.

Definition DEFAULT_DATASET_VERSION : string := "7".

Definition latest_season (st : FeatureStore.t) : string :=
  let s := _latest_season (FeatureStore.df st) in
  if decide (s = "") then DEFAULT_DATASET_VERSION else s.

Section Lookups.
Context `{JsonCodec}.

Definition cache_key (row : Fixture.row) : string * string * string :=
  (_normalize_name (Fixture.season row),
   _normalize_name (Fixture.home_team_name row),
   _normalize_name (Fixture.away_team_name row)).

(** The answer of [self.cache.get(...)] for a row; no cache is a miss. *)
Definition cached_features (st : FeatureStore.t) (row : Fixture.row)
    : exn + option (gmap string Q) :=
  match FeatureStore.cache st with
  | None => inr None
  | Some db =>
      let '(season, home, away) := cache_key row in
      FeatureCache.get db (FeatureStore.dataset_version st) season home away
        (FeatureStore.dataset_mtime st)
  end.

(** One turn of the loop over [self.required_features]. *)
Definition resolve_feature (row : Fixture.row)
    (acc : gmap string Q * FeatureStore.t) (feature : string)
    : gmap string Q * FeatureStore.t :=
  let '(features, st) := acc in
  let value := Fixture.cells row !! feature in
  match value ≫= numeric with
  | None =>
      let origin := default UNKNOWN (feature_lineage st !! feature) in
      let st' :=
        if decide (origin = UNKNOWN /\
                   feature ∉ FeatureStore._unknown_features_logged st)
        then warn_unknown st feature else st in
      (<[feature := 0%Q]> features, st')
  | Some v => (<[feature := v]> features, st)
  end.

Definition resolve_features (st : FeatureStore.t) (row : Fixture.row)
    : gmap string Q * FeatureStore.t :=
  foldl (resolve_feature row) (∅, st) (FeatureStore.required_features st).

Definition store_features (st : FeatureStore.t) (row : Fixture.row)
    (features : gmap string Q) : FeatureStore.t :=
  match FeatureStore.cache st with
  | None => st
  | Some db =>
      let '(season, home, away) := cache_key row in
      with_cache st
        (FeatureCache.set db (FeatureStore.dataset_version st) season home away
           (FeatureStore.dataset_mtime st) (Fixture.match_id row) features)
  end.

Definition fixture_of (row : Fixture.row) (features : gmap string Q) : FixtureFeatures :=
  {| ff_match_id := Fixture.match_id row;
     ff_home_team := Fixture.home_team_name row;
     ff_away_team := Fixture.away_team_name row;
     ff_season := Fixture.season row;
     ff_features := features |}.

Definition _build_features_from_row (st : FeatureStore.t) (row : Fixture.row)
    : (exn + FixtureFeatures) * FeatureStore.t :=
  let recompute :=
    let '(features, st') := resolve_features st row in
    (inr (fixture_of row features), store_features st' row features) in
  match cached_features st row with
  | inl e => (inl e, st)
  | inr (Some cached) =>
      if decide (cached = ∅) then recompute
      else (inr (fixture_of row cached), st)
  | inr None => recompute
  end.

Definition get_fixture_by_id (st : FeatureStore.t) (match_id : Z)
    : (exn + FixtureFeatures) * FeatureStore.t :=
  match filter (fun r => Fixture.match_id r = match_id) (FeatureStore.df st) with
  | [] => (inl (ValueError ("match_id " +:+ pretty match_id +:+ " not found in dataset")), st)
  | row :: _ => _build_features_from_row st row
  end.

(** The rows selected by the mask of [get_fixture]. *)
Definition fixture_mask (season home away : string) (r : Fixture.row) : Prop :=
  Fixture.season r = season /\
  lower (Fixture.home_team_name r) = lower home /\
  lower (Fixture.away_team_name r) = lower away.

#[global] Instance fixture_mask_dec season home away r :
  Decision (fixture_mask season home away r).
Proof. unfold fixture_mask. apply _. Defined.

(** [season or self.latest_season]: [None] and the empty string are falsy. *)
Definition season_or_latest (st : FeatureStore.t) (season : option string) : string :=
  match season with
  | Some s => if decide (s = "") then latest_season st else s
  | None => latest_season st
  end.

Definition get_fixture (st : FeatureStore.t) (season : option string)
    (home away : string) : (exn + FixtureFeatures) * FeatureStore.t :=
  let season := season_or_latest st season in
  match filter (fixture_mask season home away) (FeatureStore.df st) with
  | [] => (inl (ValueError ("Fixture " +:+ home +:+ " vs " +:+ away +:+ " ("
                            +:+ season +:+ ") not found")), st)
  | row :: _ => _build_features_from_row st row
  end.

(** A call on the public interface of a store. *)
Inductive call :=
  | GetFixture (season : option string) (home away : string)
  | GetFixtureById (match_id : Z).

Definition step (st : FeatureStore.t) (c : call) : FeatureStore.t :=
  match c with
  | GetFixture season home away => (get_fixture st season home away).2
  | GetFixtureById match_id => (get_fixture_by_id st match_id).2
  end.

(** The store after a sequence of calls, whatever each call returned or
    raised. *)
Definition run (st : FeatureStore.t) (calls : list call) : FeatureStore.t :=
  foldl step st calls.
End Lookups.

(** *** A small table: three clubs, four fixtures *)

Definition fixture (id ts home : Z) (home_name : string) (away : Z)
    (away_name : string) (hg ag : Z) (hxg axg : option Q) (code : string)
    : Matches.row :=
  {| Matches.match_id := id;
     Matches.match_datetime_utc := ts;
     Matches.season := 2024;
     Matches.home_team_id := home;
     Matches.home_team_name := home_name;
     Matches.away_team_id := away;
     Matches.away_team_name := away_name;
     Matches.home_goals := Some (inject_Z hg);
     Matches.away_goals := Some (inject_Z ag);
     Matches.home_xg := hxg;
     Matches.away_xg := axg;
     Matches.forecast_home_win := Some (55 # 100)%Q;
     Matches.forecast_draw := Some (25 # 100)%Q;
     Matches.forecast_away_win := Some (20 # 100)%Q;
     Matches.match_outcome_code := code |}.

Definition demo_matches : list Matches.row :=
  [ fixture 1 100 1 "Arsenal" 2 "Leeds" 2 1 (Some (3 # 2)%Q) (Some (7 # 10)%Q) "H";
    fixture 2 200 2 "Leeds" 3 "Chelsea" 0 0 (Some (1 # 2)%Q) (Some (1 # 2)%Q) "D";
    fixture 3 300 3 "Chelsea" 1 "Arsenal" 1 3 (Some (9 # 10)%Q) None "A";
    fixture 4 400 1 "Arsenal" 3 "Chelsea" 1 0 None (Some (4 # 5)%Q) "H" ].

Definition demo_view : list Long.row :=
  Eval vm_compute in compute_team_view demo_matches.

(** Arsenal's third appearance, the home fixture against Chelsea. *)
Definition demo_third : Long.row :=
  {| Long.cols :=
       {| Long.match_id := 4;
          Long.match_datetime_utc := 400;
          Long.season := 2024;
          Long.team_id := 1;
          Long.team_name := "Arsenal";
          Long.points := 3;
          Long.goals_for := Some 1%Q;
          Long.goals_against := Some 0%Q;
          Long.xg_for := None;
          Long.xg_against := Some (4 # 5)%Q;
          Long.is_home := 1 |};
     Long.goal_diff := Some 1%Q;
     Long.xg_diff := None;
     Long.match_number := 2;
     Long.rest_days := Some (100 # 86400)%Q |}.

Definition demo_rolling : Rolling.row :=
  Eval vm_compute in
    {| Rolling.long := fillna_row demo_third;
       Rolling.added := list_to_map (cell_at 2 <$> added_cols demo_view) |}.

(** A fixture whose home-win forecast could not be parsed by [load_v1]. *)
Definition unparsed_forecast : Matches.row :=
  {| Matches.match_id := 5;
     Matches.match_datetime_utc := 500;
     Matches.season := 2024;
     Matches.home_team_id := 2;
     Matches.home_team_name := "Leeds";
     Matches.away_team_id := 1;
     Matches.away_team_name := "Arsenal";
     Matches.home_goals := Some 1%Q;
     Matches.away_goals := Some 1%Q;
     Matches.home_xg := Some 1%Q;
     Matches.away_xg := Some 1%Q;
     Matches.forecast_home_win := None;
     Matches.forecast_draw := Some (25 # 100)%Q;
     Matches.forecast_away_win := Some (20 # 100)%Q;
     Matches.match_outcome_code := "D" |}.

(** *** Smoothed form and shot features *)

(** The numeric column [df[name]]. *)
Definition column (name : string) (df : list Fixture.row) : list (option Q) :=
  (fun r => Fixture.cells r !! name ≫= numeric) <$> df.

Inductive side := Home | Away.

Definition team_name (s : side) (r : Fixture.row) : string :=
  match s with
  | Home => Fixture.home_team_name r
  | Away => Fixture.away_team_name r
  end.

(** [df.groupby(["season", f"{side}_team_name"], sort=False).cumcount()] *)
Definition season_games (s : side) (df : list Fixture.row) : list nat :=
  cumcount (fun r => (Fixture.season r, team_name s r)) df.

(** [(games.clip(upper=window).astype(float) / window)]: the column
    [home_recent_games_frac] or [away_recent_games_frac]. *)
Definition frac_of (window n : nat) : Q :=
  (inject_Z (Z.of_nat (n `min` window)) / inject_Z (Z.of_nat window))%Q.

Definition recent_games_frac (s : side) (window : nat) (df : list Fixture.row)
    : list (option Q) :=
  (fun n => Some (frac_of window n)) <$> season_games s df.

(** Two cells agree: both missing, or both present with equal values. *)
Definition cell_eq (x y : option Q) : Prop :=
  match x, y with
  | Some a, Some b => (a == b)%Q
  | None, None => True
  | _, _ => False
  end.

(** [series.replace(0.0, np.nan)] *)
Definition zero_to_nan (c : option Q) : option Q :=
  c ≫= fun x => if Qeq_bool x 0 then None else Some x.

(** [per_match.dropna().mean()], 0.0 when nothing is left. *)
Definition prior_mean (per_match : list (option Q)) : Q :=
  match present per_match with
  | [] => 0%Q
  | obs => Qmean obs
  end.

Definition _smoothed_avg (sum_series games_frac : list (option Q)) (window : nat)
    : list (option Q) :=
  let games :=
    (fun c : option Q => (fun f => f * inject_Z (Z.of_nat window))%Q <$> c)
      <$> games_frac in
  let per_match := zip_with (nan_lift2 Qdiv) sum_series (zero_to_nan <$> games) in
  let prior := prior_mean per_match in
  let per_match := (fun c => Some (fillna prior c)) <$> per_match in
  let alpha := (fun c : option Q => Qclip 0 1 <$> c) <$> games_frac in
  zip_with (fun a p =>
              nan_lift2 Qplus (nan_lift2 Qmult a p)
                (nan_lift2 Qmult ((fun x => 1 - x)%Q <$> a) (Some prior)))
    alpha per_match.

(** The ten smoothed columns of [_prepare_smoothed_form]: the new column,
    the rolling-sum column it is made from, and the side whose games
    fraction weighs it. *)
Definition smoothed_columns : list (string * string * side) :=
  [ ("home_goals_for_avg5", "home_goals_for_last_5", Home);
    ("home_goals_against_avg5", "home_goals_against_last_5", Home);
    ("home_xg_for_avg5", "home_xg_for_last_5", Home);
    ("home_xg_against_avg5", "home_xg_against_last_5", Home);
    ("home_points_avg5", "home_points_last_5", Home);
    ("away_goals_for_avg5", "away_goals_for_last_5", Away);
    ("away_goals_against_avg5", "away_goals_against_last_5", Away);
    ("away_xg_for_avg5", "away_xg_for_last_5", Away);
    ("away_xg_against_avg5", "away_xg_against_last_5", Away);
    ("away_points_avg5", "away_points_last_5", Away) ].

(** The column that [_prepare_smoothed_form] assigns for one of them, in a
    frame that does not carry the games fractions yet. *)
Definition smoothed_column (sum_name : string) (s : side) (window : nat)
    (df : list Fixture.row) : list (option Q) :=
  _smoothed_avg (column sum_name df) (recent_games_frac s window df) window.

(** The per-match rates that are defined: window sum over games, for the
    rows with a present sum and at least one game. *)
Definition per_match_rates (sum_name : string) (s : side) (window : nat)
    (df : list Fixture.row) : list Q :=
  present (zip_with (fun c n =>
                       if decide (n `min` window = 0) then None
                       else (fun x => x / inject_Z (Z.of_nat (n `min` window)))%Q <$> c)
             (column sum_name df) (season_games s df)).

(** The mean of those rates over the whole dataset, 0 when there is none. *)
Definition global_prior_mean (sum_name : string) (s : side) (window : nat)
    (df : list Fixture.row) : Q :=
  match per_match_rates sum_name s window df with
  | [] => 0%Q
  | rates => Qmean rates
  end.

#[global] Instance Qle_dec : RelDecision Qle.
Proof.
  intros x y. destruct (Qlt_le_dec y x) as [Hlt|Hle].
  - right. by apply Qlt_not_le.
  - by left.
Defined.

(** [Series.median(skipna=True)]: the middle observation, or the mean of the
    two middle ones; undefined without observations. *)
Definition median (col : list (option Q)) : option Q :=
  let sorted := merge_sort Qle (present col) in
  let n := length sorted in
  if decide (n = 0) then None
  else if Nat.odd n then sorted !! (n / 2)
  else nan_lift2 (fun a b => (a + b) / 2)%Q (sorted !! (n / 2 - 1)) (sorted !! (n / 2)).

(** [series.fillna(other)] *)
Definition fillna_with (c other : option Q) : option Q :=
  match c with
  | Some v => Some v
  | None => other
  end.

Definition _prior_rolling_mean {A : Type} (df : list A) (team_col : A -> string)
    (value_col : A -> option Q) (window : nat) : list Q :=
  let series :=
    groupby_transform team_col value_col
      (fun s => shift (rolling_mean window 1 s)) df in
  let fallback :=
    (fun c => fillna_with c (median (value_col <$> df))) <$>
      groupby_transform team_col value_col shift df in
  zip_with (fun s f => fillna 0%Q (fillna_with s f)) series fallback.

(** The first lines of [_prepare_shot_features]: the missing shot counts of
    a column are replaced by its median, or by 0.0 when it has none. *)
Definition fill_shots (col : list (option Q)) : list (option Q) :=
  let m := median col in
  (fun c => Some (fillna (default 0%Q m) c)) <$> col.

(** [df[f"{side}_shots_for_avg5"]]: the prior rolling mean of the filled shot
    column, grouped on the team name of that side. *)
Definition shots_for_avg (s : side) (window : nat) (df : list Fixture.row) : list Q :=
  let name := match s with Home => "home_shots_for" | Away => "away_shots_for" end in
  _prior_rolling_mean (zip df (fill_shots (column name df)))
    (fun r => team_name s r.1) snd window.

(** *** A small store *)

Definition dq : string := String "034"%char EmptyString.

Definition demo_payload : gmap string Q := {["prob_edge" := (35 # 100)%Q]}.

Definition demo_text : string := "{" +:+ dq +:+ "prob_edge" +:+ dq +:+ ": 0.35}".

(** The fragment of the JSON codec on two documents: the payload above and
    the empty object. *)
Definition demo_codec : JsonCodec :=
  {| json_dumps := fun features =>
       if decide (features = demo_payload) then demo_text else "{}";
     json_loads := fun text =>
       if decide (text = demo_text) then Some demo_payload
       else if decide (text = "{}") then Some ∅ else None |}.

Definition demo_row : Fixture.row :=
  {| Fixture.match_id := 28793;
     Fixture.season := "2025";
     Fixture.home_team_name := "Arsenal";
     Fixture.away_team_name := "Leeds";
     Fixture.cells :=
       {[ "prob_edge" := CFloat (35 # 100)%Q;
          "elo_gap_pre" := CNaN;
          "match_day_index" := CInt 3 ]} |}.

Definition demo_last_season : Fixture.row :=
  {| Fixture.match_id := 22001;
     Fixture.season := "2024";
     Fixture.home_team_name := "Arsenal";
     Fixture.away_team_name := "Leeds";
     Fixture.cells := {[ "prob_edge" := CFloat (10 # 100)%Q ]} |}.

Definition store_with (required : list string)
    (db : option (gmap FeatureCache.key FeatureCache.entry)) : FeatureStore.t :=
  {| FeatureStore.dataset_version := "7";
     FeatureStore.dataset_mtime := 1700000000%Q;
     FeatureStore.df := [demo_last_season; demo_row];
     FeatureStore.required_features := required;
     FeatureStore._baseline_columns := {["elo_gap_pre"; "match_day_index"]};
     FeatureStore._derived_columns := {["prob_edge"]};
     FeatureStore._unknown_features_logged := ∅;
     FeatureStore.cache := db;
     FeatureStore.warnings := [] |}.

(** A store without a cache file. *)
Definition demo_store : FeatureStore.t :=
  store_with ["prob_edge"; "elo_gap_pre"; "match_day_index"; "market_vs_elo_edge"] None.

(** Two stores on one cache file: the first was built when the models asked
    for [prob_edge] only and has answered one lookup; the second is built
    later, on the same dataset file, for models that also ask for
    [elo_gap_pre]. *)
Definition first_store : FeatureStore.t := store_with ["prob_edge"] (Some ∅).

Definition cache_file_after_first : option (gmap FeatureCache.key FeatureCache.entry) :=
  FeatureStore.cache
    (@get_fixture demo_codec first_store (Some "2025") "Arsenal" "Leeds").2.

Definition second_store : FeatureStore.t :=
  store_with ["prob_edge"; "elo_gap_pre"] cache_file_after_first.

(** The value the loop of [_build_features_from_row] stores for a name:
    the float of a present cell, 0.0 for a missing one. *)
Definition resolved_value (row : Fixture.row) (feature : string) : Q :=
  default 0%Q (Fixture.cells row !! feature ≫= numeric).

(** No name was warned about twice, and every name warned about is in the
    set of logged names. *)
Definition warned_once (st : FeatureStore.t) : Prop :=
  NoDup (FeatureStore.warnings st).*1 /\
  forall f, f ∈ (FeatureStore.warnings st).*1 ->
            f ∈ FeatureStore._unknown_features_logged st.

(** Shots of three fixtures as (team, shots for). *)
Definition demo_shots : list (string * option Q) :=
  [ ("Arsenal", Some 12%Q); ("Leeds", Some 8%Q); ("Arsenal", Some 10%Q) ].

(** Three home fixtures of one club in a season, with the rolling sums of
    goals scored the dataset carries for them. *)
Definition home_fixture (id : Z) (goals_for_last_5 : Q) : Fixture.row :=
  {| Fixture.match_id := id;
     Fixture.season := "2025";
     Fixture.home_team_name := "Arsenal";
     Fixture.away_team_name := "Leeds";
     Fixture.cells := {[ "home_goals_for_last_5" := CFloat goals_for_last_5 ]} |}.

Definition demo_season : list Fixture.row :=
  [ home_fixture 1 0%Q; home_fixture 2 2%Q; home_fixture 3 6%Q ].

(** The smoothed value as the specification words it, for a window [W], a
    window sum, a number of matches played and a prior:
    [games = min(matches_played, W)], [frac = games / W] and
    [frac * (window_sum / games) + (1 - frac) * global_prior_mean]. *)
Definition spec_smoothed_average (W : nat) (window_sum : Q) (matches_played : nat)
    (global_prior_mean : Q) : Q :=
  let games := inject_Z (Z.of_nat (matches_played `min` W)) in
  let frac := (games / inject_Z (Z.of_nat W))%Q in
  (frac * (window_sum / games) + (1 - frac) * global_prior_mean)%Q.

(** The fixtures before position [i] of the frame in which the team on
    side [s] of row [r] played, at home or away, in any season: their number
    is what the dataset carries as [home_matches_played] and
    [away_matches_played] (the [match_number] of [compute_team_view], which
    [pivot_features] copies). *)
Definition earlier_fixtures (s : side) (df : list Fixture.row) (i : nat)
    (r : Fixture.row) : list Fixture.row :=
  filter (fun x => Fixture.home_team_name x = team_name s r \/
                   Fixture.away_team_name x = team_name s r)
    (take i df).

Module Form.
(** What the dataset carries for one side of a fixture before kick-off:
    the matches the team has played, and its goals, expected goals and
    points over its last five matches. *)
Record t := {
  matches_played : Z;
  goals_for : Q;
  goals_against : Q;
  xg_for : Q;
  xg_against : Q;
  points : Q;
}.
End Form.

Definition form_cells (prefix : string) (f : Form.t) : list (string * cell) :=
  [ (prefix +:+ "matches_played", CInt (Form.matches_played f));
    (prefix +:+ "goals_for_last_5", CFloat (Form.goals_for f));
    (prefix +:+ "goals_against_last_5", CFloat (Form.goals_against f));
    (prefix +:+ "xg_for_last_5", CFloat (Form.xg_for f));
    (prefix +:+ "xg_against_last_5", CFloat (Form.xg_against f));
    (prefix +:+ "points_last_5", CFloat (Form.points f)) ].

(** A fixture of season 2025 with those columns for both sides. *)
Definition season_fixture (id : Z) (home : string) (home_form : Form.t)
    (away : string) (away_form : Form.t) : Fixture.row :=
  {| Fixture.match_id := id;
     Fixture.season := "2025";
     Fixture.home_team_name := home;
     Fixture.away_team_name := away;
     Fixture.cells :=
       list_to_map (form_cells "home_" home_form ++ form_cells "away_" away_form) |}.

(** A team before its first match. *)
Definition no_form : Form.t :=
  {| Form.matches_played := 0; Form.goals_for := 0; Form.goals_against := 0;
     Form.xg_for := 0; Form.xg_against := 0; Form.points := 0 |}.

(** A team after [n] matches with [gf] goals scored, [ga] conceded and
    [pts] points in the last five (expected goals as the goals). *)
Definition form_after (n : Z) (gf ga pts : Q) : Form.t :=
  {| Form.matches_played := n; Form.goals_for := gf; Form.goals_against := ga;
     Form.xg_for := gf; Form.xg_against := ga; Form.points := pts |}.

(** Arsenal opens the season with five away wins (1-2 at Leeds, then four
    times 0-2) and ten goals scored, then plays at home twice (losing 1-2
    to Leeds in the first); Leeds then plays its second home fixture. *)
Definition first_home_fixture : Fixture.row :=
  season_fixture 6 "Arsenal" (form_after 5 10 1 15) "Leeds" (form_after 1 1 2 0).

Definition away_run : list Fixture.row :=
  [ season_fixture 1 "Leeds" no_form "Arsenal" no_form;
    season_fixture 2 "Chelsea" no_form "Arsenal" (form_after 1 2 1 3);
    season_fixture 3 "Everton" no_form "Arsenal" (form_after 2 4 1 6);
    season_fixture 4 "Fulham" no_form "Arsenal" (form_after 3 6 1 9);
    season_fixture 5 "Brentford" no_form "Arsenal" (form_after 4 8 1 12);
    first_home_fixture;
    season_fixture 7 "Arsenal" (form_after 6 9 2 12) "Burnley" no_form;
    season_fixture 8 "Leeds" (form_after 2 3 3 3) "Sunderland" no_form ].

(** ** Further definitions for the properties of the remaining code *)

(** The configuration of a store, which no lookup changes. *)
Definition same_config (st st' : FeatureStore.t) : Prop :=
  FeatureStore.dataset_version st' = FeatureStore.dataset_version st /\
  FeatureStore.dataset_mtime st' = FeatureStore.dataset_mtime st /\
  FeatureStore.df st' = FeatureStore.df st /\
  FeatureStore.required_features st' = FeatureStore.required_features st /\
  FeatureStore._baseline_columns st' = FeatureStore._baseline_columns st /\
  FeatureStore._derived_columns st' = FeatureStore._derived_columns st.

(** Every warning of the log names a required feature that is in neither
    column set of [st0], with the dataset version of [st0]. *)
Definition warnings_about_unknown (st0 st : FeatureStore.t) : Prop :=
  forall f v, (f, v) ∈ FeatureStore.warnings st ->
    (f ∈ FeatureStore.required_features st0) /\
    (f ∉ FeatureStore._baseline_columns st0) /\
    (f ∉ FeatureStore._derived_columns st0) /\
    v = FeatureStore.dataset_version st0.

Definition first_store_after : FeatureStore.t :=
  (@_build_features_from_row demo_codec first_store demo_row).2.

(** *** Required features and the dataset version *)




Definition is_digit (c : ascii) : bool :=
  let n := nat_of_ascii c in (48 <=? n) && (n <=? 57).

Fixpoint take_digits (s : string) : string :=
  match s with
  | EmptyString => EmptyString
  | String c s' => if is_digit c then String c (take_digits s') else EmptyString
  end.

(** [re.search(r"(\d+)", label)]: the leftmost run of digits, as long as it
    goes (ASCII digits). *)
Fixpoint first_digits (s : string) : option string :=
  match s with
  | EmptyString => None
  | String c s' => if is_digit c then Some (take_digits s) else first_digits s'
  end.

Definition _extract_dataset_version (dataset_label : option string) : option string :=
  match dataset_label with
  | None => None
  | Some label => if decide (label = "") then None else first_digits label
  end.

(** Python truthiness of an optional string. *)
Definition truthy (s : option string) : bool :=
  match s with
  | None => false
  | Some s => negb (bool_decide (s = ""))
  end.

Definition resolve_dataset_version (explicit_version dataset_label : option string)
    (fallback_versions : list string) : option string :=
  if truthy explicit_version then explicit_version
  else match _extract_dataset_version dataset_label with
       | Some label_version => Some label_version
       | None => head (filter (fun v => v <> "") fallback_versions)
       end.

Module Notebook.
(** [NotebookModelSpec], without the path of its metrics file. *)
Record spec := {
  name : string;
  feature_cols : list string;
  dataset_label : option string;
}.

(** [NotebookRun.models], in insertion order. *)
Record run := {
  run_id : string;
  models : list spec;
}.
End Notebook.

(** [NotebookRun.dataset_versions] *)
Definition dataset_versions (run : Notebook.run) : list string :=
  foldl (fun versions model =>
           match _extract_dataset_version (Notebook.dataset_label model) with
           | Some version =>
               if decide (version = "" \/ version ∈ versions) then versions
               else versions ++ [version]
           | None => versions
           end) [] (Notebook.models run).

Fixpoint split_on (sep : ascii) (s : string) : list string :=
  match s with
  | EmptyString => [EmptyString]
  | String c s' =>
      if Ascii.eqb c sep then EmptyString :: split_on sep s'
      else match split_on sep s' with
           | t :: ts => String c t :: ts
           | [] => [String c EmptyString]
           end
  end.

Fixpoint all_digits (s : string) : bool :=
  match s with
  | EmptyString => true
  | String c s' => is_digit c && all_digits s'
  end.

(** [str.isdigit()] on ASCII: not empty, digits only. *)
Definition isdigit (s : string) : bool :=
  negb (bool_decide (s = "")) && all_digits s.

Definition _guess_version_from_name (filename : string) : option string :=
  head (filter (fun token => isdigit token = true) (split_on "_"%char filename)).

(** The dataset version [FeatureStore.__init__] settles on. *)
Definition init_dataset_version (dataset_version env_version : option string)
    (notebook_run : option Notebook.run) (dataset_path_name : option string) : string :=
  let notebook_label :=
    match notebook_run with
    | Some run => head (Notebook.models run) ≫= Notebook.dataset_label
    | None => None
    end in
  let fallback_versions :=
    match notebook_run with
    | Some run => dataset_versions run
    | None => []
    end in
  let explicit_version := if truthy dataset_version then dataset_version else env_version in
  let resolved_version :=
    resolve_dataset_version explicit_version notebook_label fallback_versions in
  let resolved_version :=
    match dataset_path_name with
    | Some name =>
        if truthy resolved_version then resolved_version
        else resolve_dataset_version None (_guess_version_from_name name) []
    | None => resolved_version
    end in
  if truthy resolved_version then default DEFAULT_DATASET_VERSION resolved_version
  else DEFAULT_DATASET_VERSION.

Fixpoint has_digit (s : string) : bool :=
  match s with
  | EmptyString => false
  | String c s' => is_digit c || has_digit s'
  end.

(** The text does not go on with a digit. *)
Definition digit_free_start (s : string) : bool :=
  match s with
  | EmptyString => true
  | String c _ => negb (is_digit c)
  end.

(** The label of the first model of the discovered run, and the versions of
    all its models: what [FeatureStore.__init__] hands to
    [resolve_dataset_version]. *)
Definition notebook_label (notebook_run : option Notebook.run) : option string :=
  match notebook_run with
  | Some run => head (Notebook.models run) ≫= Notebook.dataset_label
  | None => None
  end.

Definition notebook_versions (notebook_run : option Notebook.run) : list string :=
  match notebook_run with
  | Some run => dataset_versions run
  | None => []
  end.

Definition demo_run : Notebook.run :=
  {| Notebook.run_id := "run_20250101";
     Notebook.models :=
       [ {| Notebook.name := "performance_dense";
            Notebook.feature_cols := ["elo_gap_pre"; "prob_edge"];
            Notebook.dataset_label := Some "Dataset_Version_7" |};
         {| Notebook.name := "market_gradient_boost";
            Notebook.feature_cols := ["prob_edge"; "market_entropy"];
            Notebook.dataset_label := Some "v8 (market)" |} ] |}.

(** Two rows with the same sort key. *)
Definition same_key (a b : Long.base) : Prop :=
  Long.team_id a = Long.team_id b /\
  Long.match_datetime_utc a = Long.match_datetime_utc b.

#[global] Instance same_key_dec : RelDecision same_key.
Proof. intros a b. unfold same_key. apply _. Defined.

(** *** cleanLeagueResults.py and add_targets *)

Definition compute_outcome (home_goals away_goals : Z) : string :=
  if (away_goals <? home_goals)%Z then "Home Win"
  else if (home_goals <? away_goals)%Z then "Away Win"
  else "Draw".

(** The outcome columns the cleaner writes for a match. *)
Record Outcome := {
  match_outcome : string;
  match_outcome_code : string;
  home_win_flag : Z;
  draw_flag : Z;
  away_win_flag : Z;
}.

Definition outcome_columns (home_goals away_goals : Z) : Outcome :=
  let outcome := compute_outcome home_goals away_goals in
  let outcome_code :=
    if String.eqb outcome "Home Win" then "H"
    else if String.eqb outcome "Draw" then "D" else "A" in
  {| match_outcome := outcome;
     match_outcome_code := outcome_code;
     home_win_flag := if String.eqb outcome_code "H" then 1 else 0;
     draw_flag := if String.eqb outcome_code "D" then 1 else 0;
     away_win_flag := if String.eqb outcome_code "A" then 1 else 0 |}.

(** [add_targets]: the outcome id of a code (missing for another code) and
    the points actually won. *)
Definition outcome_id (code : string) : option Z :=
  if String.eqb code "H" then Some 2%Z
  else if String.eqb code "D" then Some 1%Z
  else if String.eqb code "A" then Some 0%Z
  else None.

Definition home_points_actual (o : Outcome) : Z := (home_win_flag o * 3 + draw_flag o * 1)%Z.
Definition away_points_actual (o : Outcome) : Z := (away_win_flag o * 3 + draw_flag o * 1)%Z.
(** * Properties *)

(** ** Counting inside groups *)

Section GroupFacts.
Context {A K : Type} `{EqDecision K} (key : A -> K).

Lemma group_of_split (k : K) (df : list A) (i : nat) :
  group_of key k df = group_of key k (take i df) ++ group_of key k (drop i df).
Proof. unfold group_of. by rewrite <- filter_app, take_drop. Qed.

Lemma group_of_take (k : K) (df : list A) (i : nat) :
  take (length (group_of key k (take i df))) (group_of key k df)
  = group_of key k (take i df).
Proof. rewrite (group_of_split k df i). apply take_app_length. Qed.

Lemma group_count_mono (k : K) (df : list A) (i j : nat) :
  i <= j ->
  length (group_of key k (take i df)) <= length (group_of key k (take j df)).
Proof.
  intros Hij. rewrite (group_of_split k (take j df) i), take_take.
  replace (i `min` j) with i by lia. rewrite length_app. lia.
Qed.

Lemma group_count_step (df : list A) (i : nat) (a : A) :
  df !! i = Some a ->
  length (group_of key (key a) (take (S i) df))
  = S (length (group_of key (key a) (take i df))).
Proof.
  intros Hi. rewrite (take_S_r _ _ _ Hi). unfold group_of.
  rewrite filter_app, length_app. cbn.
  rewrite decide_True by done. cbn. lia.
Qed.

Lemma group_count_lt (df : list A) (i j : nat) (a : A) :
  df !! i = Some a -> i < j ->
  length (group_of key (key a) (take i df))
  < length (group_of key (key a) (take j df)).
Proof.
  intros Hi Hij.
  pose proof (group_count_mono (key a) df (S i) j ltac:(lia)) as Hm.
  rewrite (group_count_step df i a Hi) in Hm. lia.
Qed.

Lemma group_count_bound (df : list A) (i : nat) (a : A) :
  df !! i = Some a ->
  length (group_of key (key a) (take i df)) < length (group_of key (key a) df).
Proof.
  intros Hi.
  pose proof (group_count_lt df i (length df) a Hi
                (lookup_lt_Some _ _ _ Hi)) as Hlt.
  by rewrite firstn_all in Hlt.
Qed.

Lemma group_of_fmap {B : Type} (f : B -> A) (k : K) (l : list B) :
  group_of key k (f <$> l) = f <$> group_of (key ∘ f) k l.
Proof.
  unfold group_of. induction l as [|b l IH]; [done|].
  rewrite fmap_cons, !filter_cons, IH. cbn. by case_decide.
Qed.
End GroupFacts.

(** ** The sort of the team view *)

#[global] Instance key_le_trans : Transitive key_le.
Proof. unfold key_le. intros a b c [?|[? ?]] [?|[? ?]]; [left|left|left|right]; lia. Qed.

#[global] Instance key_le_total : Total key_le.
Proof. unfold key_le. intros a b. lia. Qed.

Lemma insert_row_perm (x : Long.base) (l : list Long.base) :
  insert_row x l ≡ₚ x :: l.
Proof.
  induction l as [|y l IH]; cbn; [done|].
  case_decide; [done|]. rewrite IH. apply Permutation_swap.
Qed.

Lemma sort_values_perm (df : list Long.base) : sort_values df ≡ₚ df.
Proof.
  induction df as [|x df IH]; cbn; [done|].
  by rewrite insert_row_perm, IH.
Qed.

Lemma insert_row_sorted (x : Long.base) (l : list Long.base) :
  StronglySorted key_le l -> StronglySorted key_le (insert_row x l).
Proof.
  induction 1 as [|y l Hl IH Hy]; cbn.
  - repeat constructor.
  - case_decide as Hxy.
    + constructor; [by constructor|].
      constructor; [done|].
      eapply Forall_impl; [exact Hy|]. intros z Hz. by etrans.
    + constructor; [done|].
      rewrite insert_row_perm. constructor; [|done].
      by destruct (total key_le x y).
Qed.

Lemma sort_values_sorted (df : list Long.base) :
  StronglySorted key_le (sort_values df).
Proof.
  induction df as [|x df IH]; cbn; [constructor|by apply insert_row_sorted].
Qed.

Lemma StronglySorted_lookup {A : Type} (R : relation A) (l : list A)
    (i j : nat) (a b : A) :
  StronglySorted R l -> i < j -> l !! i = Some a -> l !! j = Some b -> R a b.
Proof.
  intros Hs. revert i j. induction Hs as [|x l Hl IH Hx]; intros i j Hij Hi Hj.
  - by rewrite lookup_nil in Hi.
  - destruct j as [|j]; [lia|]. destruct i as [|i]; cbn in *.
    + injection Hi as <-. rewrite Forall_forall in Hx.
      apply Hx. eapply list_elem_of_lookup_2, Hj.
    + apply (IH i j); [lia|done..].
Qed.

(** ** The team view *)

Lemma compute_team_view_cols (matches : list Matches.row) :
  Long.cols <$> compute_team_view matches = long_frame matches.
Proof.
  unfold compute_team_view. fold (long_frame matches).
  apply list_eq. intros i. rewrite list_lookup_fmap, list_lookup_imap.
  by destruct (long_frame matches !! i).
Qed.

Lemma compute_team_view_lookup (matches : list Matches.row) (i : nat) (r : Long.row) :
  compute_team_view matches !! i = Some r ->
  long_frame matches !! i = Some (Long.cols r) /\
  Long.match_number r
  = length (group_of Long.team_id (Long.team_id r) (take i (long_frame matches))).
Proof.
  unfold compute_team_view. fold (long_frame matches).
  rewrite list_lookup_imap. destruct (long_frame matches !! i) as [b|]; [|done].
  cbn. by intros [= <-].
Qed.

Lemma compute_team_view_count (matches : list Matches.row) (i : nat) (r : Long.row) :
  compute_team_view matches !! i = Some r ->
  Long.match_number r
  = length (group_of (fun x : Long.row => Long.team_id x) (Long.team_id r)
              (take i (compute_team_view matches))).
Proof.
  intros Hi. destruct (compute_team_view_lookup _ _ _ Hi) as [_ ->].
  rewrite <- compute_team_view_cols, <- fmap_take.
  by rewrite (group_of_fmap Long.team_id Long.cols), length_fmap.
Qed.

Lemma compute_team_view_order (matches : list Matches.row) (i j : nat)
    (ri rj : Long.row) :
  compute_team_view matches !! i = Some ri ->
  compute_team_view matches !! j = Some rj ->
  Long.team_id ri = Long.team_id rj -> i < j ->
  (Long.match_datetime_utc ri <= Long.match_datetime_utc rj)%Z /\
  Long.match_number ri < Long.match_number rj.
Proof.
  intros Hi Hj Ht Hij.
  destruct (compute_team_view_lookup _ _ _ Hi) as [Hbi ->].
  destruct (compute_team_view_lookup _ _ _ Hj) as [Hbj ->].
  split.
  - pose proof (StronglySorted_lookup key_le _ i j _ _
                  (sort_values_sorted _) Hij Hbi Hbj) as [Hlt|[_ Hle]]; [lia|done].
  - rewrite <- Ht. by apply (group_count_lt Long.team_id _ i j (Long.cols ri)).
Qed.

Lemma filter_none {A : Type} (P : A -> Prop) `{!forall x, Decision (P x)} (l : list A) :
  (forall x, x ∈ l -> ~ P x) -> filter P l = [].
Proof.
  induction l as [|x l IH]; intros Hl; [done|].
  rewrite filter_cons_False by (apply Hl; left).
  apply IH. intros y Hy. apply Hl. by right.
Qed.

Lemma filter_agree {A : Type} (P1 P2 : A -> Prop)
    `{!forall x, Decision (P1 x)} `{!forall x, Decision (P2 x)} (l : list A) :
  (forall x, x ∈ l -> P1 x <-> P2 x) -> filter P1 l = filter P2 l.
Proof.
  induction l as [|x l IH]; intros Hl; [done|].
  rewrite !filter_cons.
  rewrite IH by (intros y Hy; apply Hl; by right).
  destruct (decide (P1 x)) as [H1|H1], (decide (P2 x)) as [H2|H2];
    try done; exfalso; apply (Hl x) in H1 || apply (Hl x) in H2; try done; by left.
Qed.

(** In a frame sorted on (team, kickoff) whose teams never kick off twice at
    the same instant, the rows of a team in front of a position are the rows
    of that team with a strictly earlier kickoff. *)
Lemma sorted_earlier_rows (l : list Long.base) (i : nat) (b : Long.base) :
  StronglySorted key_le l -> NoDup (kickoff_key <$> l) -> l !! i = Some b ->
  filter (fun a : Long.base =>
            Long.team_id a = Long.team_id b /\
            (Long.match_datetime_utc a < Long.match_datetime_utc b)%Z) l
  = group_of Long.team_id (Long.team_id b) (take i l).
Proof.
  intros Hs Hnd Hi. unfold group_of.
  rewrite <- (take_drop i l) at 1. rewrite filter_app.
  rewrite (filter_none _ (drop i l)).
  - rewrite app_nil_r. apply filter_agree. intros x Hx.
    apply elem_of_take in Hx as (j & Hj & Hlt).
    split; [tauto|]. intros Ht. split; [done|].
    pose proof (StronglySorted_lookup key_le _ j i _ _ Hs Hlt Hj Hi) as [?|[_ Hle]];
      [lia|].
    destruct (decide (Long.match_datetime_utc x = Long.match_datetime_utc b)) as [He|];
      [|lia].
    assert (j = i); [|lia].
    eapply (NoDup_lookup _ _ _ _ Hnd); rewrite list_lookup_fmap.
    + by rewrite Hj.
    + rewrite Hi. cbn. unfold kickoff_key. by rewrite Ht, He.
  - intros x Hx [Ht Hlt].
    apply list_elem_of_lookup in Hx as [j Hj]. rewrite lookup_drop in Hj.
    destruct j as [|j].
    + replace (i + 0) with i in Hj by lia. rewrite Hi in Hj. injection Hj as <-. lia.
    + pose proof (StronglySorted_lookup key_le _ i (i + S j) _ _ Hs ltac:(lia) Hi Hj)
        as [?|[_ Hle]]; lia.
Qed.

(** ** Claims on the team view *)

(** C8: the point rule of the view builder: the home-win code gives (3,0),
    the away-win code (0,3) and the draw code (1,1); the home and the away
    row of a match carry these points; and the team view consists of exactly
    the home row and the away row of every match, two rows per match. *)
Theorem outcome_points_rule (matches : list Matches.row) :
  outcome_points "H" = (3, 0)%Z /\
  outcome_points "A" = (0, 3)%Z /\
  outcome_points "D" = (1, 1)%Z /\
  (forall m : Matches.row,
     (Long.points (home_row m), Long.points (away_row m))
     = outcome_points (Matches.match_outcome_code m)) /\
  Long.cols <$> compute_team_view matches
    ≡ₚ (home_row <$> matches) ++ (away_row <$> matches) /\
  length (compute_team_view matches) = 2 * length matches.
Proof.
  assert (Hp : Long.cols <$> compute_team_view matches
               ≡ₚ (home_row <$> matches) ++ (away_row <$> matches)).
  { rewrite compute_team_view_cols. apply sort_values_perm. }
  repeat split; try done.
  - intros m. cbn. by destruct (outcome_points _).
  - apply Permutation_length in Hp.
    rewrite length_fmap, length_app, !length_fmap in Hp. lia.
Qed.

(** C3: at every row of the team view the match number is the zero-based
    count of the rows of the same team in front of it; the rows of a team
    come in kickoff order with strictly increasing match numbers, so a later
    kickoff always has the larger match number; and when no team kicks off
    twice at the same instant the match number is the number of appearances
    of the team in the table with a strictly earlier kickoff. *)
Theorem match_number_sequence (matches : list Matches.row) (i : nat) (r : Long.row) :
  compute_team_view matches !! i = Some r ->
  Long.match_number r
  = length (group_of (fun x : Long.row => Long.team_id x) (Long.team_id r)
              (take i (compute_team_view matches))) /\
  (forall (j : nat) (r' : Long.row),
     compute_team_view matches !! j = Some r' ->
     Long.team_id r' = Long.team_id r ->
     (i < j ->
      (Long.match_datetime_utc r <= Long.match_datetime_utc r')%Z /\
      Long.match_number r < Long.match_number r') /\
     ((Long.match_datetime_utc r < Long.match_datetime_utc r')%Z ->
      Long.match_number r < Long.match_number r')) /\
  (NoDup (kickoff_key <$> (home_df matches ++ away_df matches)) ->
   Long.match_number r = length (earlier_appearances matches r)).
Proof.
  intros Hi. split; [by apply compute_team_view_count|]. split.
  - intros j r' Hj Ht. split.
    + intros Hij. by apply (compute_team_view_order matches i j).
    + intros Hlt.
      destruct (decide (i < j)) as [Hij|Hji].
      { by apply (compute_team_view_order matches i j). }
      destruct (decide (i = j)) as [->|Hne].
      { rewrite Hi in Hj. injection Hj as <-. lia. }
      pose proof (compute_team_view_order matches j i r' r Hj Hi Ht ltac:(lia)). lia.
  - intros Hnd.
    destruct (compute_team_view_lookup _ _ _ Hi) as [Hb ->].
    rewrite <- (sorted_earlier_rows (long_frame matches) i r
                  (sort_values_sorted _));
      [|unfold long_frame; by rewrite sort_values_perm|done].
    unfold earlier_appearances, long_frame.
    by rewrite sort_values_perm.
Qed.

(** ** Rolling sums *)

Lemma shift_length {V : Type} (s : list (option V)) : length (shift s) = length s.
Proof.
  destruct s as [|x s]; [done|]. unfold shift.
  cbn [length]. rewrite removelast_firstn_len, length_take. cbn. lia.
Qed.

Lemma shift_take {V : Type} (s : list (option V)) (k : nat) :
  k < length s -> take (k + 1) (shift s) = None :: take k s.
Proof.
  intros Hk. destruct s as [|x s]; [cbn in Hk; lia|]. unfold shift.
  replace (k + 1) with (S k) by lia. cbn [take]. f_equal.
  rewrite removelast_firstn_len, take_take. f_equal. cbn in *. lia.
Qed.

Lemma window_shift {V : Type} (w k : nat) (s : list (option V)) :
  0 < w -> k < length s ->
  present (window_at w k (shift s)) = present (lastn w (take k s)).
Proof.
  intros Hw Hk. unfold window_at, lastn. rewrite shift_take by done.
  rewrite length_take. replace (k `min` length s) with k by lia.
  destruct (decide (k < w)) as [Hlt|Hge].
  - replace (k + 1 - w) with 0 by lia. replace (k - w) with 0 by lia. done.
  - replace (k + 1 - w) with (S (k - w)) by lia. done.
Qed.

Lemma rolling_sum_shift (w : nat) (s : list (option Q)) (k : nat) :
  0 < w -> k < length s ->
  fillna 0%Q (default None (rolling_sum w 1 (shift s) !! k))
  = Qsum (present (lastn w (take k s))).
Proof.
  intros Hw Hk. unfold rolling_sum. rewrite list_lookup_imap.
  destruct (lookup_lt_is_Some_2 (shift s) k) as [x ->];
    [by rewrite shift_length|].
  cbn. rewrite window_shift by done.
  destruct (present (lastn w (take k s))) as [|q obs]; [done|].
  rewrite decide_True by (cbn; lia). done.
Qed.

Lemma groupby_transform_lookup {A K V W : Type} `{EqDecision K}
    (key : A -> K) (col : A -> V) (f : list V -> list (option W))
    (df : list A) (i : nat) (r : A) :
  df !! i = Some r ->
  groupby_transform key col f df !! i
  = Some (default None (f (col <$> group_of key (key r) df)
                          !! length (group_of key (key r) (take i df)))).
Proof. intros Hi. unfold groupby_transform. by rewrite list_lookup_imap, Hi. Qed.

Lemma last_col_lookup (val : Long.row -> option Q) (w : nat)
    (long_df : list Long.row) (i : nat) (r : Long.row) :
  0 < w -> long_df !! i = Some r ->
  fillna 0%Q (default None (last_col val w long_df !! i))
  = Qsum (present (lastn w (val <$> group_of (fun x : Long.row => Long.team_id x)
                                      (Long.team_id r) (take i long_df)))).
Proof.
  intros Hw Hi. unfold last_col.
  rewrite (groupby_transform_lookup _ _ _ _ _ _ Hi). cbv beta. cbn [default].
  unfold id.
  rewrite rolling_sum_shift; [|done|].
  - by rewrite <- fmap_take, group_of_take.
  - rewrite length_fmap.
    apply (group_count_bound (fun x : Long.row => Long.team_id x) _ _ _ Hi).
Qed.

Lemma added_cols_names (long_df : list Long.row) :
  (added_cols long_df).*1 = added_names.
Proof. reflexivity. Qed.

Lemma added_names_NoDup : NoDup added_names.
Proof. apply (bool_decide_unpack _). vm_compute. reflexivity. Qed.

Lemma added_lookup (long_df : list Long.row) (i : nat) (r : Rolling.row)
    (name : string) (c : list (option Q)) :
  add_rolling_features long_df !! i = Some r ->
  (name, c) ∈ added_cols long_df ->
  Rolling.added r !! name = Some (fillna 0%Q (default None (c !! i))).
Proof.
  unfold add_rolling_features. rewrite list_lookup_imap.
  destruct (long_df !! i) as [x|]; [|done].
  cbn [fmap option_fmap option_map]. intros Hr Hin.
  apply (inj Some) in Hr. rewrite <- Hr. cbn [Rolling.added].
  apply elem_of_list_to_map_1.
  - rewrite <- list_fmap_compose.
    replace (fst ∘ cell_at i) with (@fst string (list (option Q))) by done.
    rewrite added_cols_names. apply added_names_NoDup.
  - apply (list_elem_of_fmap_2 (cell_at i) _ _ Hin).
Qed.

Lemma rolling_cols_elem (long_df : list Long.row) (col : string)
    (val : Long.row -> option Q) (w : nat) :
  (col, val) ∈ feature_specs -> w ∈ windows ->
  (new_col col w, last_col val w long_df) ∈ added_cols long_df.
Proof.
  intros Hc Hw. unfold added_cols. apply elem_of_app. left.
  unfold rolling_cols. apply list_elem_of_bind. exists (col, val). split; [|done].
  apply list_elem_of_bind. exists w. split; [|done]. cbn. left.
Qed.

Lemma windows_pos (w : nat) : w ∈ windows -> 0 < w.
Proof.
  unfold windows. intros Hw.
  repeat (apply elem_of_cons in Hw as [->|Hw]; [lia|]).
  by apply elem_of_nil in Hw.
Qed.

Lemma add_rolling_features_row (long_df : list Long.row) (i : nat) (r : Rolling.row) :
  add_rolling_features long_df !! i = Some r ->
  exists x : Long.row, long_df !! i = Some x /\ Long.team_id r = Long.team_id x
                       /\ Long.match_datetime_utc r = Long.match_datetime_utc x.
Proof.
  unfold add_rolling_features. rewrite list_lookup_imap.
  destruct (long_df !! i) as [x|]; [|done].
  cbn [fmap option_fmap option_map]. intros Hr.
  apply (inj Some) in Hr. rewrite <- Hr. exists x.
  split; [reflexivity|]. split; reflexivity.
Qed.

(** The value of a rolling column at a row, over the prior rows of its team. *)
Lemma rolling_feature_value (long_df : list Long.row) (i : nat) (r : Rolling.row)
    (col : string) (val : Long.row -> option Q) (w : nat) :
  add_rolling_features long_df !! i = Some r ->
  (col, val) ∈ feature_specs -> w ∈ windows ->
  Rolling.added r !! new_col col w
  = Some (Qsum (present (lastn w (val <$> prior_rows long_df i (Long.team_id r))))).
Proof.
  intros Hr Hc Hw.
  destruct (add_rolling_features_row _ _ _ Hr) as (x & Hx & Ht & _).
  rewrite (added_lookup long_df i r _ _ Hr (rolling_cols_elem long_df col val w Hc Hw)).
  rewrite (last_col_lookup val w long_df i x (windows_pos w Hw) Hx).
  unfold prior_rows. by rewrite Ht.
Qed.

(** C1: for every base metric and every window W of (3, 5, 10), the rolling
    column of a row holds the sum of the metric (missing cells skipped) over
    the W most recent of the rows of the same team in front of it, so over
    prior appearances only: the value is 0 when the team has no prior row,
    it is the same in any frame that agrees on the rows in front of the
    position, and in the kickoff-sorted team view those prior rows did not
    kick off later than the row itself. *)
Theorem rolling_features_use_prior_rows (long_df : list Long.row) (i : nat)
    (r : Rolling.row) (col : string) (val : Long.row -> option Q) (w : nat) :
  add_rolling_features long_df !! i = Some r ->
  (col, val) ∈ feature_specs -> w ∈ windows ->
  Rolling.added r !! new_col col w
  = Some (Qsum (present (lastn w (val <$> prior_rows long_df i (Long.team_id r))))) /\
  (prior_rows long_df i (Long.team_id r) = [] ->
   Rolling.added r !! new_col col w = Some 0%Q) /\
  (forall (long_df' : list Long.row) (r' : Rolling.row),
     take i long_df' = take i long_df ->
     add_rolling_features long_df' !! i = Some r' ->
     Long.team_id r' = Long.team_id r ->
     Rolling.added r' !! new_col col w = Rolling.added r !! new_col col w) /\
  (forall matches : list Matches.row,
     long_df = compute_team_view matches ->
     forall p : Long.row,
       p ∈ prior_rows long_df i (Long.team_id r) ->
       (Long.match_datetime_utc p <= Long.match_datetime_utc r)%Z).
Proof.
  intros Hr Hc Hw.
  pose proof (rolling_feature_value long_df i r col val w Hr Hc Hw) as Hv.
  split; [done|]. split; [|split].
  - intros Hnil. by rewrite Hv, Hnil.
  - intros long_df' r' Htake Hr' Ht.
    rewrite Hv, (rolling_feature_value long_df' i r' col val w Hr' Hc Hw).
    unfold prior_rows. by rewrite Htake, Ht.
  - intros matches -> p Hp.
    destruct (add_rolling_features_row _ _ _ Hr) as (x & Hx & Ht & Hts).
    unfold prior_rows, group_of in Hp.
    apply list_elem_of_filter in Hp as [Hpt Hp].
    apply elem_of_take in Hp as (j & Hj & Hlt).
    rewrite Hts.
    apply (compute_team_view_order matches j i p x Hj Hx); [congruence|done].
Qed.

Lemma match_number_sequence_witness :
  compute_team_view demo_matches !! 2 = Some demo_third /\
  NoDup (kickoff_key <$> (home_df demo_matches ++ away_df demo_matches)) /\
  Long.match_number demo_third = length (earlier_appearances demo_matches demo_third).
Proof.
  assert (Hrow : compute_team_view demo_matches !! 2 = Some demo_third)
    by (vm_compute; reflexivity).
  assert (Hnd : NoDup (kickoff_key <$> (home_df demo_matches ++ away_df demo_matches)))
    by (apply (bool_decide_unpack _); vm_compute; reflexivity).
  split; [exact Hrow|]. split; [exact Hnd|].
  exact (proj2 (proj2 (match_number_sequence demo_matches 2 demo_third Hrow)) Hnd).
Defined.

Lemma rolling_features_use_prior_rows_witness :
  add_rolling_features demo_view !! 2 = Some demo_rolling /\
  Rolling.added demo_rolling !! "points_last_3" = Some 6%Q.
Proof.
  assert (Hrow : add_rolling_features demo_view !! 2 = Some demo_rolling)
    by (vm_compute; reflexivity).
  split; [exact Hrow|].
  exact (eq_trans
           (proj1 (rolling_features_use_prior_rows demo_view 2 demo_rolling
                     "points" (fun r : Long.row => Some (inject_Z (Long.points r))) 3
                     Hrow ltac:(left) ltac:(left)))
           eq_refl).
Defined.

(** ** Market probabilities *)

Lemma Qclip_bounds (lo hi x : Q) : (lo <= hi)%Q -> (lo <= Qclip lo hi x <= hi)%Q.
Proof.
  intros Hle. unfold Qclip. split.
  - apply Q.min_glb; [apply Q.le_max_r|done].
  - apply Q.le_min_r.
Qed.

Lemma clip_forecast_bounds (x : Q) :
  (epsilon <= Qclip epsilon (1 - epsilon) x <= 1 - epsilon)%Q.
Proof. apply Qclip_bounds. unfold epsilon. lra. Qed.

Lemma share_bounds (x y z : Q) :
  (0 < x)%Q -> (0 < y)%Q -> (0 < z)%Q ->
  (0 < x / (x + y + z) < 1)%Q.
Proof.
  intros Hx Hy Hz. assert (Ht : (0 < x + y + z)%Q) by lra. split.
  - apply Qlt_shift_div_l; [done|lra].
  - apply Qlt_shift_div_r; [done|lra].
Qed.

Lemma Qclip_cases (lo hi x : Q) :
  (lo <= hi)%Q ->
  ((lo <= x <= hi)%Q -> (Qclip lo hi x == x)%Q) /\
  ((x <= lo)%Q -> (Qclip lo hi x == lo)%Q) /\
  ((hi <= x)%Q -> (Qclip lo hi x == hi)%Q).
Proof.
  intros Hle. unfold Qclip. split; [|split].
  - intros [H1 H2]. rewrite (Q.max_l x lo H1). by apply Q.min_l.
  - intros H1. rewrite (Q.max_r x lo H1). by apply Q.min_l.
  - intros H1. apply Q.min_r. apply (Qle_trans _ x); [exact H1|]. apply Q.le_max_l.
Qed.

(** C4 (as amended): a fixture row whose three forecasts are present leaves
    the market stage with each forecast clamped to [1e-6, 1 - 1e-6] (a
    value inside the range is kept, one below it becomes 1e-6, one above
    it 1 - 1e-6) and then divided by the sum of the three clamped values,
    so the three probabilities sum to one within the tolerance 1e-6 (in
    this model of exact rationals the sum is one) and each lies strictly
    between 0 and 1.  A row in which any of the three forecasts is missing
    leaves the stage with all three probabilities missing. *)
Theorem market_probabilities_normalized (m : Matches.row) :
  let c := Qclip epsilon (1 - epsilon)%Q in
  let r := add_market_features_row m in
  (forall x : Q,
     ((1 # 1000000 <= x <= 1 - (1 # 1000000))%Q -> (c x == x)%Q) /\
     ((x <= 1 # 1000000)%Q -> (c x == 1 # 1000000)%Q) /\
     ((1 - (1 # 1000000) <= x)%Q -> (c x == 1 - (1 # 1000000))%Q)) /\
  (forall h d a : Q,
     Matches.forecast_home_win m = Some h ->
     Matches.forecast_draw m = Some d ->
     Matches.forecast_away_win m = Some a ->
     let total := (c h + c d + c a)%Q in
     ((1 # 1000000 <= c h <= 1 - (1 # 1000000))%Q /\
      (1 # 1000000 <= c d <= 1 - (1 # 1000000))%Q /\
      (1 # 1000000 <= c a <= 1 - (1 # 1000000))%Q) /\
     Market.forecast_home_win r = Some (c h / total)%Q /\
     Market.forecast_draw r = Some (c d / total)%Q /\
     Market.forecast_away_win r = Some (c a / total)%Q /\
     normalized_within (1 # 1000000) r /\
     normalized r) /\
  (Matches.forecast_home_win m = None \/
   Matches.forecast_draw m = None \/
   Matches.forecast_away_win m = None ->
   Market.forecast_home_win r = None /\
   Market.forecast_draw r = None /\
   Market.forecast_away_win r = None).
Proof.
  intros c r. split; [|split].
  - intros x. apply (Qclip_cases epsilon (1 - epsilon)%Q x). unfold epsilon. lra.
  - intros h d a Hh Hd Ha total.
    pose proof (clip_forecast_bounds h) as Bh.
    pose proof (clip_forecast_bounds d) as Bd.
    pose proof (clip_forecast_bounds a) as Ba.
    fold c in Bh, Bd, Ba. unfold epsilon in Bh, Bd, Ba.
    split; [by repeat split; lra|].
    assert (Er : Market.forecast_home_win r = Some (c h / total)%Q /\
                 Market.forecast_draw r = Some (c d / total)%Q /\
                 Market.forecast_away_win r = Some (c a / total)%Q).
    { subst r. unfold add_market_features_row, clip_forecast.
      rewrite Hh, Hd, Ha. cbn. done. }
    destruct Er as (E1 & E2 & E3).
    split; [exact E1|]. split; [exact E2|]. split; [exact E3|].
    assert (Hh0 : (0 < c h)%Q) by lra.
    assert (Hd0 : (0 < c d)%Q) by lra.
    assert (Ha0 : (0 < c a)%Q) by lra.
    assert (Hsum : (c h / total + c d / total + c a / total == 1)%Q).
    { subst total. field. lra. }
    assert (Bh' : (0 < c h / total < 1)%Q).
    { subst total. by apply share_bounds. }
    assert (Bd' : (0 < c d / total < 1)%Q).
    { subst total. assert (E : (c h + c d + c a == c d + c h + c a)%Q) by ring.
      rewrite E. by apply share_bounds. }
    assert (Ba' : (0 < c a / total < 1)%Q).
    { subst total. assert (E : (c h + c d + c a == c a + c h + c d)%Q) by ring.
      rewrite E. by apply share_bounds. }
    split.
    + exists (c h / total)%Q, (c d / total)%Q, (c a / total)%Q.
      split; [exact E1|]. split; [exact E2|]. split; [exact E3|].
      split; [|done].
      apply Qabs_Qle_condition. rewrite Hsum. split; lra.
    + exists (c h / total)%Q, (c d / total)%Q, (c a / total)%Q.
      split; [exact E1|]. split; [exact E2|]. split; [exact E3|].
      split; [exact Hsum|done].
  - subst r. unfold add_market_features_row, clip_forecast.
    destruct (Matches.forecast_home_win m), (Matches.forecast_draw m),
      (Matches.forecast_away_win m); cbn;
      intros [Hm|[Hm|Hm]]; try discriminate Hm; repeat split; reflexivity.
Qed.

Lemma market_probabilities_normalized_witness :
  normalized_within (1 # 1000000)
    (add_market_features_row (fixture 1 100 1 "Arsenal" 2 "Leeds" 2 1 None None "H")) /\
  Market.forecast_away_win (add_market_features_row unparsed_forecast) = None.
Proof.
  split.
  - exact (proj1 (proj2 (proj2 (proj2 (proj2
      (proj1 (proj2 (market_probabilities_normalized
                       (fixture 1 100 1 "Arsenal" 2 "Leeds" 2 1 None None "H")))
         (55 # 100)%Q (25 # 100)%Q (20 # 100)%Q eq_refl eq_refl eq_refl)))))).
  - exact (proj2 (proj2
      (proj2 (proj2 (market_probabilities_normalized unparsed_forecast))
         (or_introl eq_refl)))).
Defined.

(** A row whose home-win forecast is missing leaves the market stage with
    the three probabilities missing, although its draw and away-win
    forecasts are present: the three cells do not sum to one within the
    tolerance, nor exactly. *)
Lemma market_missing_forecast_not_normalized :
  Matches.forecast_draw unparsed_forecast = Some (25 # 100)%Q /\
  Matches.forecast_away_win unparsed_forecast = Some (20 # 100)%Q /\
  Market.forecast_home_win (add_market_features_row unparsed_forecast) = None /\
  Market.forecast_draw (add_market_features_row unparsed_forecast) = None /\
  Market.forecast_away_win (add_market_features_row unparsed_forecast) = None /\
  ~ normalized_within (1 # 1000000) (add_market_features_row unparsed_forecast) /\
  ~ normalized (add_market_features_row unparsed_forecast).
Proof.
  repeat (split; [reflexivity|]). split.
  - intros (h & d & a & Hh & _). vm_compute in Hh. discriminate Hh.
  - intros (h & d & a & Hh & _). vm_compute in Hh. discriminate Hh.
Qed.

(** ** The feature cache *)

(** C2: after [set] has stored a payload under a key with dataset mtime
    [t], [get] on that key with the same mtime returns the payload value for
    value (given that the JSON text of the payload decodes to the payload),
    and [get] with an mtime further than 1e-6 from [t] is a miss. *)
Theorem cache_round_trip `{JsonCodec} (db : gmap FeatureCache.key FeatureCache.entry)
    (dataset_version season home away : string) (t : Q) (match_id : Z)
    (features : gmap string Q) :
  json_loads (json_dumps features) = Some features ->
  let db' := FeatureCache.set db dataset_version season home away t match_id features in
  FeatureCache.get db' dataset_version season home away t = inr (Some features) /\
  forall t' : Q,
    (1 # 1000000 < Qabs (t' - t))%Q ->
    FeatureCache.get db' dataset_version season home away t' = inr None.
Proof.
  intros Hcodec db'. subst db'. unfold FeatureCache.get, FeatureCache.set.
  rewrite lookup_insert_eq. cbn [FeatureCache.dataset_mtime FeatureCache.payload].
  split.
  - destruct (Qlt_le_dec _ _) as [Hlt|_]; [|by rewrite Hcodec].
    exfalso. unfold FeatureCache.tolerance in Hlt.
    assert (E : (t - t == 0)%Q) by ring. rewrite E in Hlt.
    change (Qabs 0) with 0%Q in Hlt. lra.
  - intros t' Hfar. rewrite Qabs_Qminus.
    destruct (Qlt_le_dec _ _) as [_|Hle]; [done|].
    exfalso. unfold FeatureCache.tolerance in Hle. lra.
Qed.

(** ** Fixture lookups *)

Lemma filter_nil_iff {A : Type} (P : A -> Prop) `{!forall x, Decision (P x)} (l : list A) :
  filter P l = [] <-> forall x, x ∈ l -> ~ P x.
Proof.
  split.
  - intros Hnil x Hx HP. by apply (filter_nil_not_elem_of P l x Hnil HP).
  - apply filter_none.
Qed.

Lemma fixture_mask_lower (season home away home' away' : string) (r : Fixture.row) :
  lower home' = lower home -> lower away' = lower away ->
  fixture_mask season home' away' r <-> fixture_mask season home away r.
Proof. unfold fixture_mask. by intros -> ->. Qed.

Lemma get_fixture_found `{JsonCodec} (st : FeatureStore.t) (season : option string)
    (home away : string) (r : Fixture.row) :
  r ∈ FeatureStore.df st ->
  fixture_mask (season_or_latest st season) home away r ->
  exists row, row ∈ FeatureStore.df st /\
              fixture_mask (season_or_latest st season) home away row /\
              get_fixture st season home away = _build_features_from_row st row.
Proof.
  intros Hr Hm. unfold get_fixture.
  destruct (filter (fixture_mask (season_or_latest st season) home away)
              (FeatureStore.df st)) as [|row l] eqn:Hf.
  - exfalso. by apply (proj1 (filter_nil_iff _ _) Hf r).
  - exists row.
    assert (Hin : row ∈ filter (fixture_mask (season_or_latest st season) home away)
                          (FeatureStore.df st)) by (rewrite Hf; left).
    apply list_elem_of_filter in Hin as [? ?]. done.
Qed.

(** C7: when no row of the dataset matches the (season, home, away) triple,
    with the team names compared after lowering their case, [get_fixture]
    raises its not-found error and leaves the store as it was; likewise
    [get_fixture_by_id] when no row carries the match id; when a row
    matches, the call is answered from a matching row; and two spellings of
    the team names that differ only in case select the same rows and, when a
    row matches, give the same answer. *)
Theorem fixture_not_found `{JsonCodec} (st : FeatureStore.t) (season : option string)
    (home away : string) (match_id : Z) :
  let s := season_or_latest st season in
  ((forall r, r ∈ FeatureStore.df st -> ~ fixture_mask s home away r) ->
   get_fixture st season home away
   = (inl (ValueError ("Fixture " +:+ home +:+ " vs " +:+ away +:+ " ("
                       +:+ s +:+ ") not found")), st)) /\
  ((forall r, r ∈ FeatureStore.df st -> Fixture.match_id r <> match_id) ->
   get_fixture_by_id st match_id
   = (inl (ValueError ("match_id " +:+ pretty match_id +:+ " not found in dataset")), st)) /\
  (forall r, r ∈ FeatureStore.df st -> fixture_mask s home away r ->
   exists row, row ∈ FeatureStore.df st /\ fixture_mask s home away row /\
               get_fixture st season home away = _build_features_from_row st row) /\
  (forall home' away' : string,
     lower home' = lower home -> lower away' = lower away ->
     (forall r, fixture_mask s home' away' r <-> fixture_mask s home away r) /\
     ((exists r, r ∈ FeatureStore.df st /\ fixture_mask s home away r) ->
      get_fixture st season home' away' = get_fixture st season home away)).
Proof.
  intros s. split; [|split; [|split]].
  - intros Hnone. unfold get_fixture. fold s.
    by rewrite (proj2 (filter_nil_iff _ _) Hnone).
  - intros Hnone. unfold get_fixture_by_id.
    by rewrite (proj2 (filter_nil_iff (fun r => Fixture.match_id r = match_id) _) Hnone).
  - intros r Hr Hm. by apply (get_fixture_found st season home away r).
  - intros home' away' Hh Ha. split; [intros r; by apply fixture_mask_lower|].
    intros (r & Hr & Hm). unfold get_fixture. fold s.
    rewrite (filter_agree (fixture_mask s home' away') (fixture_mask s home away))
      by (intros x _; by apply fixture_mask_lower).
    destruct (filter (fixture_mask s home away) (FeatureStore.df st)) as [|row l] eqn:Hf;
      [|done].
    exfalso. by apply (proj1 (filter_nil_iff _ _) Hf r).
Qed.

(** *** The latest season *)

Lemma leb_refl (a : string) : String.leb a a = true.
Proof.
  unfold String.leb.
  pose proof (proj2 (OrderedTypeEx.String_as_OT.cmp_eq a a) eq_refl) as E.
  unfold OrderedTypeEx.String_as_OT.cmp in E. by rewrite E.
Qed.

Lemma leb_lt_or_eq (a b : string) :
  String.leb a b = true <-> a = b \/ OrderedTypeEx.String_as_OT.lt a b.
Proof.
  unfold String.leb. split.
  - destruct (String.compare a b) eqn:Hc; [left|right|done].
    + by apply OrderedTypeEx.String_as_OT.cmp_eq.
    + by apply OrderedTypeEx.String_as_OT.cmp_lt.
  - intros [->|Hlt].
    + apply leb_refl.
    + apply OrderedTypeEx.String_as_OT.cmp_lt in Hlt.
      unfold OrderedTypeEx.String_as_OT.cmp in Hlt. by rewrite Hlt.
Qed.

Lemma leb_trans (a b c : string) :
  String.leb a b = true -> String.leb b c = true -> String.leb a c = true.
Proof.
  rewrite !leb_lt_or_eq. intros [->|Hab] [->|Hbc]; auto.
  right. by eapply OrderedTypeEx.String_as_OT.lt_trans.
Qed.

Lemma str_max_ge_l (a b : string) : String.leb a (str_max a b) = true.
Proof. unfold str_max. destruct (String.leb a b) eqn:E; [done|apply leb_refl]. Qed.

Lemma str_max_ge_r (a b : string) : String.leb b (str_max a b) = true.
Proof.
  unfold str_max. destruct (String.leb a b) eqn:E; [apply leb_refl|].
  by destruct (String.leb_total a b) as [Hab|Hba]; [congruence|].
Qed.

Lemma foldl_str_max (s : string) (l : list string) :
  foldl str_max s l ∈ s :: l /\
  forall x, x ∈ s :: l -> String.leb x (foldl str_max s l) = true.
Proof.
  revert s. induction l as [|y l IH]; intros s; cbn.
  - split; [left|]. intros x Hx. apply list_elem_of_singleton in Hx as ->. apply leb_refl.
  - destruct (IH (str_max s y)) as [Hin Hmax]. split.
    + apply elem_of_cons in Hin as [->|Hin].
      * unfold str_max. destruct (String.leb s y); [right; left|left].
      * right. by right.
    + intros x Hx.
      assert (Hm : String.leb (str_max s y) (foldl str_max (str_max s y) l) = true)
        by (apply Hmax; left).
      apply elem_of_cons in Hx as [->|Hx].
      * eapply leb_trans; [apply str_max_ge_l|exact Hm].
      * apply elem_of_cons in Hx as [->|Hx].
        -- eapply leb_trans; [apply str_max_ge_r|exact Hm].
        -- apply Hmax. by right.
Qed.

Lemma _latest_season_max (df : list Fixture.row) :
  df <> [] ->
  _latest_season df ∈ Fixture.season <$> df /\
  forall r, r ∈ df -> String.leb (Fixture.season r) (_latest_season df) = true.
Proof.
  intros Hne. unfold _latest_season.
  destruct df as [|r0 df]; [done|]. rewrite fmap_cons.
  destruct (foldl_str_max (Fixture.season r0) (Fixture.season <$> df)) as [Hin Hmax].
  split; [done|]. intros r Hr. apply Hmax.
  rewrite <- fmap_cons. by apply list_elem_of_fmap_2.
Qed.

(** C9: a call of [get_fixture] whose season is [None] or empty is answered
    as the same call on the latest season; in a dataset with at least one
    row and no empty season label the latest season is a season of the
    dataset that is not smaller than any other (in the order of the season
    strings), and the call does not raise for the missing argument: it
    raises exactly when that season has no row for the two teams. *)
Theorem missing_season_uses_latest `{JsonCodec} (st : FeatureStore.t) (home away : string) :
  FeatureStore.df st <> [] ->
  (forall r, r ∈ FeatureStore.df st -> Fixture.season r <> "") ->
  let latest := latest_season st in
  get_fixture st None home away = get_fixture st (Some latest) home away /\
  get_fixture st (Some "") home away = get_fixture st (Some latest) home away /\
  latest ∈ Fixture.season <$> FeatureStore.df st /\
  (forall r, r ∈ FeatureStore.df st -> String.leb (Fixture.season r) latest = true) /\
  (forall r, r ∈ FeatureStore.df st -> fixture_mask latest home away r ->
   exists row, row ∈ FeatureStore.df st /\ fixture_mask latest home away row /\
               get_fixture st None home away = _build_features_from_row st row).
Proof.
  intros Hne Hseason latest.
  destruct (_latest_season_max _ Hne) as [Hin Hmax].
  assert (Hl : latest = _latest_season (FeatureStore.df st)).
  { subst latest. unfold latest_season. case_decide as He; [|done].
    exfalso. rewrite He in Hin.
    apply list_elem_of_fmap in Hin as (r & Hr & Hrin). by apply (Hseason r). }
  assert (Hsome : season_or_latest st (Some latest) = latest).
  { unfold season_or_latest. by case_decide. }
  assert (E1 : get_fixture st None home away = get_fixture st (Some latest) home away).
  { unfold get_fixture. by rewrite Hsome. }
  split; [done|]. split.
  { unfold get_fixture. rewrite Hsome. done. }
  split; [by rewrite Hl|]. split; [by rewrite Hl|].
  intros r Hr Hm. by apply (get_fixture_found st None home away r).
Qed.

Lemma cache_round_trip_witness :
  @json_loads demo_codec (@json_dumps demo_codec demo_payload) = Some demo_payload /\
  @FeatureCache.get demo_codec
    (@FeatureCache.set demo_codec ∅ "7" "2025" "arsenal" "leeds" 1700000000%Q 28793
       demo_payload)
    "7" "2025" "arsenal" "leeds" 1700000000%Q = inr (Some demo_payload).
Proof.
  assert (Hc : @json_loads demo_codec (@json_dumps demo_codec demo_payload)
               = Some demo_payload) by (vm_compute; reflexivity).
  split; [exact Hc|].
  exact (proj1 (@cache_round_trip demo_codec ∅ "7" "2025" "arsenal" "leeds"
                  1700000000%Q 28793 demo_payload Hc)).
Defined.

Lemma fixture_not_found_witness :
  (forall r, r ∈ FeatureStore.df demo_store ->
             ~ fixture_mask "2025" "Arsenal" "Everton" r) /\
  @get_fixture demo_codec demo_store (Some "2025") "Arsenal" "Everton"
  = (inl (ValueError "Fixture Arsenal vs Everton (2025) not found"), demo_store).
Proof.
  assert (Hnone : forall r, r ∈ FeatureStore.df demo_store ->
                            ~ fixture_mask "2025" "Arsenal" "Everton" r).
  { apply Forall_forall. apply (bool_decide_unpack _). vm_compute. reflexivity. }
  split; [exact Hnone|].
  exact (proj1 (@fixture_not_found demo_codec demo_store (Some "2025")
                  "Arsenal" "Everton" 0) Hnone).
Defined.

Lemma missing_season_uses_latest_witness :
  FeatureStore.df demo_store <> [] /\
  (forall r, r ∈ FeatureStore.df demo_store -> Fixture.season r <> "") /\
  @get_fixture demo_codec demo_store None "arsenal" "LEEDS"
  = @get_fixture demo_codec demo_store (Some "2025") "arsenal" "LEEDS".
Proof.
  assert (Hne : FeatureStore.df demo_store <> []) by discriminate.
  assert (Hs : forall r, r ∈ FeatureStore.df demo_store -> Fixture.season r <> "").
  { apply Forall_forall. apply (bool_decide_unpack _). vm_compute. reflexivity. }
  split; [exact Hne|]. split; [exact Hs|].
  exact (proj1 (@missing_season_uses_latest demo_codec demo_store "arsenal" "LEEDS"
                  Hne Hs)).
Defined.

(** ** The resolver loop *)

Section Resolver.
Context `{JsonCodec}.

Lemma resolve_feature_value (row : Fixture.row) (features : gmap string Q)
    (st : FeatureStore.t) (feature : string) :
  (resolve_feature row (features, st) feature).1
  = <[feature := resolved_value row feature]> features.
Proof.
  unfold resolve_feature, resolved_value.
  by destruct (Fixture.cells row !! feature ≫= numeric).
Qed.

Lemma resolve_features_fold (row : Fixture.row) (l : list string)
    (features : gmap string Q) (st : FeatureStore.t) (f : string) :
  (foldl (resolve_feature row) (features, st) l).1 !! f
  = if decide (f ∈ l) then Some (resolved_value row f) else features !! f.
Proof.
  revert features st. induction l as [|x l IH]; intros features st; cbn [foldl].
  - rewrite decide_False; [done|]. apply not_elem_of_nil.
  - destruct (resolve_feature row (features, st) x) as [features' st'] eqn:Hstep.
    pose proof (resolve_feature_value row features st x) as Hv.
    rewrite Hstep in Hv. cbn in Hv. subst features'.
    rewrite IH. destruct (decide (f ∈ l)) as [Hin|Hnin].
    + rewrite decide_True; [done|]. by right.
    + destruct (decide (f = x)) as [->|Hne].
      * rewrite decide_True by left. by rewrite lookup_insert_eq.
      * rewrite decide_False.
        -- by rewrite lookup_insert_ne.
        -- intros Hc. apply elem_of_cons in Hc as [?|?]; done.
Qed.

Lemma warn_unknown_once (st : FeatureStore.t) (feature : string) :
  warned_once st -> feature ∉ FeatureStore._unknown_features_logged st ->
  warned_once (warn_unknown st feature).
Proof.
  intros [Hnd Hsub] Hnew. unfold warned_once, warn_unknown. cbn. split.
  - rewrite fmap_app. apply NoDup_app. split; [done|]. split.
    + intros x Hx Hx'. cbn in Hx'. apply list_elem_of_singleton in Hx' as ->.
      by apply Hnew, Hsub.
    + cbn. apply NoDup_singleton.
  - intros f. rewrite fmap_app, elem_of_app. cbn. intros [Hf|Hf].
    + apply elem_of_union_r. by apply Hsub.
    + apply list_elem_of_singleton in Hf as ->. apply elem_of_union_l.
      by apply elem_of_singleton.
Qed.

Lemma resolve_feature_once (row : Fixture.row) (features : gmap string Q)
    (st : FeatureStore.t) (feature : string) :
  warned_once st -> warned_once (resolve_feature row (features, st) feature).2.
Proof.
  intros Hst. unfold resolve_feature.
  destruct (Fixture.cells row !! feature ≫= numeric); [done|]. cbn.
  case_decide as Hd; [|done]. apply warn_unknown_once; [done|]. by destruct Hd.
Qed.

Lemma resolve_features_once (row : Fixture.row) (l : list string)
    (features : gmap string Q) (st : FeatureStore.t) :
  warned_once st -> warned_once (foldl (resolve_feature row) (features, st) l).2.
Proof.
  revert features st. induction l as [|x l IH]; intros features st Hst; [done|].
  cbn [foldl].
  destruct (resolve_feature row (features, st) x) as [features' st'] eqn:Hstep.
  apply IH. pose proof (resolve_feature_once row features st x Hst) as Hs.
  by rewrite Hstep in Hs.
Qed.

Lemma store_features_once (st : FeatureStore.t) (row : Fixture.row)
    (features : gmap string Q) :
  warned_once st -> warned_once (store_features st row features).
Proof.
  unfold store_features. destruct (FeatureStore.cache st); [|done].
  by destruct (cache_key row) as [[? ?] ?].
Qed.

Lemma _build_features_from_row_once (st : FeatureStore.t) (row : Fixture.row) :
  warned_once st -> warned_once (_build_features_from_row st row).2.
Proof.
  intros Hst. unfold _build_features_from_row.
  assert (Hre : warned_once
            (let '(features, st') := resolve_features st row in
             (inr (fixture_of row features) : exn + FixtureFeatures,
              store_features st' row features)).2).
  { unfold resolve_features.
    pose proof (resolve_features_once row (FeatureStore.required_features st) ∅ st Hst)
      as Hf.
    destruct (foldl (resolve_feature row) (∅, st) (FeatureStore.required_features st))
      as [features st']. by apply store_features_once. }
  destruct (cached_features st row) as [e|[cached|]]; [done| |done].
  by case_decide.
Qed.

Lemma step_once (st : FeatureStore.t) (c : call) :
  warned_once st -> warned_once (step st c).
Proof.
  intros Hst. destruct c as [season home away|match_id]; cbn.
  - unfold get_fixture. destruct (filter _ _); [done|].
    by apply _build_features_from_row_once.
  - unfold get_fixture_by_id. destruct (filter _ _); [done|].
    by apply _build_features_from_row_once.
Qed.

Lemma run_once (st : FeatureStore.t) (calls : list call) :
  warned_once st -> warned_once (run st calls).
Proof.
  unfold run. revert st. induction calls as [|c calls IH]; intros st Hst; [done|].
  cbn [foldl]. by apply IH, step_once.
Qed.

(** C6 (as amended): a lookup that is not answered from the cache (no
    cache, no entry, a stale entry or an empty cached payload) returns a
    feature map that holds every required name: 0.0 for a name whose cell
    is missing, the float of the cell otherwise, and nothing else; a
    lookup answered from the cache returns the cached payload as it is
    stored; and over the lifetime of a store, whatever calls it serves, no
    feature name is warned about twice. *)
Theorem build_features_defaults (st : FeatureStore.t) (row : Fixture.row) :
  (cached_features st row = inr None \/ cached_features st row = inr (Some ∅) ->
   exists features st',
     _build_features_from_row st row = (inr (fixture_of row features), st') /\
     (forall f, f ∈ FeatureStore.required_features st ->
        (isna (Fixture.cells row !! f) = true -> features !! f = Some 0%Q) /\
        (forall v, Fixture.cells row !! f ≫= numeric = Some v ->
                   features !! f = Some v)) /\
     (forall f, f ∉ FeatureStore.required_features st -> features !! f = None)) /\
  (forall cached, cached_features st row = inr (Some cached) -> cached <> ∅ ->
     _build_features_from_row st row = (inr (fixture_of row cached), st)) /\
  (forall calls : list call,
     FeatureStore.warnings st = [] -> NoDup (FeatureStore.warnings (run st calls)).*1).
Proof.
  split; [|split].
  - intros Hmiss.
    destruct (resolve_features st row) as [features st'] eqn:Hres.
    exists features, (store_features st' row features). split.
    + unfold _build_features_from_row. rewrite Hres.
      destruct Hmiss as [-> | ->]; [done|]. by rewrite decide_True.
    + assert (Hf : forall f, features !! f
                     = if decide (f ∈ FeatureStore.required_features st)
                       then Some (resolved_value row f) else None).
      { intros f.
        pose proof (resolve_features_fold row (FeatureStore.required_features st)
                      ∅ st f) as Hfold.
        fold (resolve_features st row) in Hfold. rewrite Hres in Hfold.
        by rewrite lookup_empty in Hfold. }
      split.
      * intros f Hin. rewrite Hf, decide_True by done. unfold resolved_value, isna.
        split.
        -- by destruct (Fixture.cells row !! f ≫= numeric).
        -- by intros v ->.
      * intros f Hnin. by rewrite Hf, decide_False.
  - intros cached Hc Hne. unfold _build_features_from_row. rewrite Hc.
    by rewrite decide_False.
  - intros calls Hw. apply run_once. unfold warned_once. rewrite Hw. split.
    + apply NoDup_nil_2.
    + intros f Hf. by apply elem_of_nil in Hf.
Qed.
End Resolver.

Lemma build_features_defaults_witness :
  @cached_features demo_codec demo_store demo_row = inr None /\
  exists features st',
    @_build_features_from_row demo_codec demo_store demo_row
    = (inr (fixture_of demo_row features), st') /\
    features !! "elo_gap_pre" = Some 0%Q /\
    features !! "prob_edge" = Some (35 # 100)%Q.
Proof.
  assert (Hc : @cached_features demo_codec demo_store demo_row = inr None)
    by reflexivity.
  split; [exact Hc|].
  destruct (proj1 (@build_features_defaults demo_codec demo_store demo_row) (or_introl Hc))
    as (features & st' & Hb & Hreq & _).
  exists features, st'. split; [exact Hb|]. split.
  - refine (proj1 (Hreq "elo_gap_pre" _) eq_refl).
    apply (bool_decide_unpack _). vm_compute. reflexivity.
  - refine (proj2 (Hreq "prob_edge" _) _ eq_refl).
    apply (bool_decide_unpack _). vm_compute. reflexivity.
Defined.

(** A second store opened on the cache file of an earlier one answers the
    lookup from the cache: the required name [elo_gap_pre], whose cell is
    missing in the row, is absent from the returned map, not 0.0. *)
Lemma cached_lookup_skips_defaults :
  "elo_gap_pre" ∈ FeatureStore.required_features second_store /\
  isna (Fixture.cells demo_row !! "elo_gap_pre") = true /\
  exists ff st',
    @get_fixture demo_codec second_store (Some "2025") "Arsenal" "Leeds" = (inr ff, st') /\
    ff_match_id ff = Fixture.match_id demo_row /\
    ff_features ff !! "elo_gap_pre" = None.
Proof.
  split; [apply (bool_decide_unpack _); vm_compute; reflexivity|].
  split; [reflexivity|].
  eexists _, _. split; [vm_compute; reflexivity|]. split; reflexivity.
Qed.

(** ** Prior rolling means *)

Lemma shift_lookup_0 {V : Type} (s : list (option V)) :
  default None (shift s !! 0) = None.
Proof. by destruct s. Qed.

Lemma group_of_no_earlier {A K : Type} `{EqDecision K} (key : A -> K)
    (df : list A) (i : nat) (r : A) :
  (forall j r', j < i -> df !! j = Some r' -> key r' <> key r) ->
  group_of key (key r) (take i df) = [].
Proof.
  intros Hfirst. apply filter_none. intros x Hx.
  apply elem_of_take in Hx as (j & Hj & Hlt). by apply (Hfirst j).
Qed.

(** C10: the prior rolling mean gives a row with no earlier row of the
    same team the median of the whole value column, and 0 only when that
    median is undefined (a column without observations). *)
Theorem cold_start_uses_median {A : Type} (df : list A) (team_col : A -> string)
    (value_col : A -> option Q) (window : nat) (i : nat) (r : A) :
  df !! i = Some r ->
  (forall j r', j < i -> df !! j = Some r' -> team_col r' <> team_col r) ->
  _prior_rolling_mean df team_col value_col window !! i
  = Some (default 0%Q (median (value_col <$> df))).
Proof.
  intros Hi Hfirst. unfold _prior_rolling_mean.
  rewrite lookup_zip_with, list_lookup_fmap.
  rewrite !(groupby_transform_lookup _ _ _ _ _ _ Hi).
  rewrite (group_of_no_earlier team_col df i r Hfirst). cbn [length].
  rewrite !shift_lookup_0. cbn. by destruct (median (value_col <$> df)).
Qed.

Lemma cold_start_uses_median_witness :
  demo_shots !! 1 = Some ("Leeds", Some 8%Q) /\
  (forall j r', j < 1 -> demo_shots !! j = Some r' -> r'.1 <> "Leeds") /\
  _prior_rolling_mean demo_shots fst snd 5 !! 1 = Some 10%Q.
Proof.
  assert (Hfirst : forall j r', j < 1 -> demo_shots !! j = Some r' -> r'.1 <> "Leeds").
  { intros j r' Hj. destruct j as [|j]; [|lia]. cbn. intros [= <-]. discriminate. }
  split; [reflexivity|]. split; [exact Hfirst|].
  exact (eq_trans
           (cold_start_uses_median demo_shots fst snd 5 1 ("Leeds", Some 8%Q)
              eq_refl Hfirst)
           eq_refl).
Defined.

(** ** Smoothed averages *)

Lemma cumcount_lookup {A K : Type} `{EqDecision K} (key : A -> K) (df : list A)
    (i : nat) (r : A) :
  df !! i = Some r ->
  cumcount key df !! i = Some (length (group_of key (key r) (take i df))).
Proof. intros Hi. unfold cumcount. by rewrite list_lookup_imap, Hi. Qed.

Lemma Qsum_Forall2 (l k : list Q) : Forall2 Qeq l k -> (Qsum l == Qsum k)%Q.
Proof. induction 1 as [|x y l k Hxy _ IH]; cbn; [reflexivity|]. by rewrite Hxy, IH. Qed.

Lemma Qmean_Forall2 (l k : list Q) : Forall2 Qeq l k -> (Qmean l == Qmean k)%Q.
Proof.
  intros Hlk. unfold Qmean.
  rewrite (Qsum_Forall2 l k Hlk), (Forall2_length _ _ _ Hlk). reflexivity.
Qed.

Lemma present_Forall2 (l k : list (option Q)) :
  Forall2 cell_eq l k -> Forall2 Qeq (present l) (present k).
Proof.
  induction 1 as [|x y l k Hxy _ IH]; [constructor|].
  destruct x as [a|], y as [b|]; cbn in *; try done. by constructor.
Qed.

Lemma zip_with_Forall2 {X Y Z : Type} (R : relation Z) (f g : X -> Y -> Z)
    (l : list X) (k : list Y) :
  (forall x y, R (f x y) (g x y)) -> Forall2 R (zip_with f l k) (zip_with g l k).
Proof.
  intros Hfg. revert k. induction l as [|x l IH]; intros [|y k]; cbn; constructor; auto.
Qed.

Lemma prior_mean_Forall2 (l k : list (option Q)) :
  Forall2 cell_eq l k ->
  (prior_mean l == match present k with [] => 0 | obs => Qmean obs end)%Q.
Proof.
  intros Hlk. unfold prior_mean. pose proof (present_Forall2 l k Hlk) as Hp.
  pose proof (Qmean_Forall2 _ _ Hp) as Hm.
  destruct Hp; [reflexivity|exact Hm].
Qed.

Section Frac.
Variable window : nat.
Hypothesis window_pos : 0 < window.

Lemma window_Q_pos : (0 < inject_Z (Z.of_nat window))%Q.
Proof. change 0%Q with (inject_Z 0). rewrite <- Zlt_Qlt. lia. Qed.

Lemma frac_times_window (n : nat) :
  (frac_of window n * inject_Z (Z.of_nat window) == inject_Z (Z.of_nat (n `min` window)))%Q.
Proof. unfold frac_of. field. pose proof window_Q_pos. lra. Qed.

Lemma frac_bounds (n : nat) : (0 <= frac_of window n <= 1)%Q.
Proof.
  unfold frac_of. pose proof window_Q_pos as Hw. split.
  - apply Qle_shift_div_l; [done|]. rewrite Qmult_0_l.
    change 0%Q with (inject_Z 0). rewrite <- Zle_Qle. lia.
  - apply Qle_shift_div_r; [done|]. rewrite Qmult_1_l. rewrite <- Zle_Qle. lia.
Qed.

Lemma frac_clip (n : nat) : (Qclip 0 1 (frac_of window n) == frac_of window n)%Q.
Proof.
  destruct (frac_bounds n) as [H0 H1]. unfold Qclip.
  rewrite Q.min_l.
  - by apply Q.max_l.
  - apply Q.max_lub; [done|lra].
Qed.

Lemma games_zero (n : nat) :
  Qeq_bool (frac_of window n * inject_Z (Z.of_nat window)) 0
  = bool_decide (n `min` window = 0).
Proof.
  destruct (decide (n `min` window = 0)) as [Hz|Hnz].
  - rewrite bool_decide_eq_true_2 by done. apply Qeq_bool_iff.
    rewrite frac_times_window, Hz. reflexivity.
  - rewrite bool_decide_eq_false_2 by done.
    destruct (Qeq_bool _ 0) eqn:E; [|done]. exfalso.
    apply Qeq_bool_iff in E. rewrite frac_times_window in E.
    unfold Qeq in E. cbn in E. lia.
Qed.

(** The per-match column of [_smoothed_avg] on the games fraction agrees,
    cell by cell, with the window sum over the number of games. *)
Lemma per_match_cells (c : option Q) (n : nat) :
  cell_eq
    (nan_lift2 Qdiv c
       (zero_to_nan ((fun f => f * inject_Z (Z.of_nat window))%Q <$> Some (frac_of window n))))
    (if decide (n `min` window = 0) then None
     else (fun x => x / inject_Z (Z.of_nat (n `min` window)))%Q <$> c).
Proof.
  cbn. rewrite games_zero. destruct (decide (n `min` window = 0)) as [Hz|Hnz].
  - rewrite bool_decide_eq_true_2 by done. by destruct c.
  - rewrite bool_decide_eq_false_2 by done. destruct c as [x|]; cbn; [|done].
    by rewrite frac_times_window.
Qed.
End Frac.

Lemma smoothed_prior (sum_name : string) (s : side) (window : nat)
    (df : list Fixture.row) :
  0 < window ->
  (prior_mean
     (zip_with (nan_lift2 Qdiv) (column sum_name df)
        (zero_to_nan <$>
           ((fun c : option Q => (fun f => f * inject_Z (Z.of_nat window))%Q <$> c)
              <$> recent_games_frac s window df)))
   == global_prior_mean sum_name s window df)%Q.
Proof.
  intros Hw. unfold global_prior_mean, per_match_rates, recent_games_frac.
  apply prior_mean_Forall2.
  rewrite <- !list_fmap_compose, zip_with_fmap_r.
  apply zip_with_Forall2. intros c n. by apply per_match_cells.
Qed.

Lemma smoothed_column_lookup (sum_name : string) (s : side) (window : nat)
    (df : list Fixture.row) (i : nat) (r : Fixture.row) :
  df !! i = Some r ->
  let n := length (group_of (fun x => (Fixture.season x, team_name s x))
                     (Fixture.season r, team_name s r) (take i df)) in
  let prior :=
    prior_mean
      (zip_with (nan_lift2 Qdiv) (column sum_name df)
         (zero_to_nan <$>
            ((fun c : option Q => (fun f => f * inject_Z (Z.of_nat window))%Q <$> c)
               <$> recent_games_frac s window df))) in
  let per_match :=
    nan_lift2 Qdiv (Fixture.cells r !! sum_name ≫= numeric)
      (zero_to_nan (Some (frac_of window n * inject_Z (Z.of_nat window))%Q)) in
  smoothed_column sum_name s window df !! i
  = Some (Some (Qclip 0 1 (frac_of window n) * fillna prior per_match
                + (1 - Qclip 0 1 (frac_of window n)) * prior)%Q).
Proof.
  intros Hi n prior per_match. unfold smoothed_column, _smoothed_avg.
  fold prior. rewrite lookup_zip_with, !list_lookup_fmap, lookup_zip_with.
  rewrite !list_lookup_fmap. unfold recent_games_frac, season_games, column.
  rewrite !list_lookup_fmap, Hi, (cumcount_lookup _ _ _ _ Hi). done.
Qed.

(** C5 (as amended): with [matches_played] the number of earlier rows of
    the frame that have the same season and the same team on the same side
    (the home team for a home column, the away team for an away column),
    [games = min(matches_played, W)], [frac = games / W] and the prior the
    mean over the dataset of the defined per-match rates (the window sum of
    a row over its games, for the rows with a present sum and at least one
    game; 0 if there is none), the smoothed average of a row is
    [frac * (window_sum / games) + (1 - frac) * prior], where [window_sum]
    is the row's cell in the rolling-sum column; it is the prior itself for
    a row with zero such games, and also for a row whose window sum is
    missing. *)
Theorem smoothed_average_formula (sum_name : string) (s : side) (window : nat)
    (df : list Fixture.row) (i : nat) (r : Fixture.row) :
  0 < window ->
  df !! i = Some r ->
  let matches_played :=
    length (group_of (fun x => (Fixture.season x, team_name s x))
              (Fixture.season r, team_name s r) (take i df)) in
  let games := inject_Z (Z.of_nat (matches_played `min` window)) in
  let frac := (games / inject_Z (Z.of_nat window))%Q in
  let prior := global_prior_mean sum_name s window df in
  season_games s df !! i = Some matches_played /\
  recent_games_frac s window df !! i = Some (Some frac) /\
  exists v : Q,
    smoothed_column sum_name s window df !! i = Some (Some v) /\
    (forall window_sum : Q,
       Fixture.cells r !! sum_name ≫= numeric = Some window_sum ->
       matches_played <> 0 ->
       (v == frac * (window_sum / games) + (1 - frac) * prior)%Q) /\
    (matches_played = 0 -> (v == prior)%Q) /\
    (Fixture.cells r !! sum_name ≫= numeric = None -> (v == prior)%Q).
Proof.
  intros Hw Hi n games frac prior.
  assert (Hn : season_games s df !! i = Some n)
    by apply (cumcount_lookup (fun x => (Fixture.season x, team_name s x)) df i r Hi).
  split; [exact Hn|]. split.
  { unfold recent_games_frac. by rewrite list_lookup_fmap, Hn. }
  rewrite (smoothed_column_lookup sum_name s window df i r Hi). fold n.
  eexists. split; [reflexivity|].
  pose proof (smoothed_prior sum_name s window df Hw) as Hprior. fold prior in Hprior.
  pose proof (frac_clip window Hw n) as Hclip.
  pose proof (games_zero window Hw n) as Hzero.
  pose proof (window_Q_pos window Hw) as Hwq.
  change (frac_of window n) with frac in *.
  split; [|split].
  - intros window_sum Hsum Hplayed. rewrite Hsum. cbn.
    rewrite Hzero, bool_decide_eq_false_2 by lia. cbn.
    rewrite Hclip, Hprior. subst frac. field. split; [lra|].
    subst games. intros E. unfold Qeq in E. cbn in E. lia.
  - intros Hnone. cbn. rewrite Hzero, bool_decide_eq_true_2 by lia.
    destruct (Fixture.cells r !! sum_name ≫= numeric); cbn;
      rewrite Hclip, Hprior; ring.
  - intros ->. cbn. rewrite Hclip, Hprior. ring.
Qed.

Lemma smoothed_average_formula_witness :
  0 < 5 /\
  demo_season !! 2 = Some (home_fixture 3 6%Q) /\
  recent_games_frac Home 5 demo_season !! 2 = Some (Some (2 / 5)%Q).
Proof.
  assert (Hw : 0 < 5) by lia.
  assert (Hrow : demo_season !! 2 = Some (home_fixture 3 6%Q)) by reflexivity.
  split; [exact Hw|]. split; [exact Hrow|].
  exact (proj1 (proj2 (smoothed_average_formula "home_goals_for_last_5" Home 5
                         demo_season 2 (home_fixture 3 6%Q) Hw Hrow))).
Defined.

(** The smoothed value does not follow the formula when [matches_played]
    is the number of matches the team has played, as the dataset's own
    [home_matches_played] has it.  Arsenal's first home fixture comes after
    five away fixtures with ten goals scored: the formula gives
    [1 * (10 / 5) + 0 * prior = 2] whatever the prior, but the games
    fraction counts home fixtures only, is 0, and the smoothed value is the
    prior, 6. *)
Lemma smoothed_average_counts_one_side :
  away_run !! 5 = Some first_home_fixture /\
  Fixture.cells first_home_fixture !! "home_goals_for_last_5" ≫= numeric = Some 10%Q /\
  Fixture.cells first_home_fixture !! "home_matches_played" ≫= numeric = Some 5%Q /\
  length (earlier_fixtures Home away_run 5 first_home_fixture) = 5 /\
  (forall prior : Q, (spec_smoothed_average 5 10 5 prior == 2)%Q) /\
  recent_games_frac Home 5 away_run !! 5 = Some (Some (0 / 5)%Q) /\
  exists v : Q,
    smoothed_column "home_goals_for_last_5" Home 5 away_run !! 5 = Some (Some v) /\
    (v == 6)%Q /\
    (v == global_prior_mean "home_goals_for_last_5" Home 5 away_run)%Q /\
    forall prior : Q, ~ (v == spec_smoothed_average 5 10 5 prior)%Q.
Proof.
  assert (Hspec : forall prior : Q, (spec_smoothed_average 5 10 5 prior == 2)%Q).
  { intros prior. unfold spec_smoothed_average.
    change (inject_Z (Z.of_nat (5 `min` 5))) with 5%Q.
    change (inject_Z (Z.of_nat 5)) with 5%Q. field. }
  split; [reflexivity|]. split; [reflexivity|]. split; [reflexivity|].
  split; [vm_compute; reflexivity|]. split; [exact Hspec|].
  split; [vm_compute; reflexivity|].
  eexists. split; [vm_compute; reflexivity|].
  split; [vm_compute; reflexivity|]. split; [vm_compute; reflexivity|].
  intros prior Hv. rewrite Hspec in Hv. vm_compute in Hv. discriminate Hv.
Qed.

(** * Further properties of the code *)

(** ** The cache table *)

(** [FeatureCache]: a lookup in an empty table is a miss; [set] leaves the
    answer of [get] for every other key as it was; and a second [set] on a
    key replaces the first, whatever it stored. *)
Theorem cache_upsert `{JsonCodec} (db : gmap FeatureCache.key FeatureCache.entry)
    (dv season home away dv' season' home' away' : string) (t t' t2 : Q)
    (match_id match_id2 : Z) (features features2 : gmap string Q) :
  FeatureCache.get ∅ dv season home away t = inr None /\
  ((dv, season, home, away) <> (dv', season', home', away') ->
   FeatureCache.get (FeatureCache.set db dv season home away t match_id features)
     dv' season' home' away' t'
   = FeatureCache.get db dv' season' home' away' t') /\
  FeatureCache.set (FeatureCache.set db dv season home away t match_id features)
    dv season home away t2 match_id2 features2
  = FeatureCache.set db dv season home away t2 match_id2 features2.
Proof.
  split; [|split].
  - unfold FeatureCache.get. by rewrite lookup_empty.
  - intros Hne. unfold FeatureCache.get, FeatureCache.set.
    by rewrite lookup_insert_ne.
  - unfold FeatureCache.set. apply insert_insert_eq.
Qed.

Lemma cache_upsert_witness :
  ("7", "2025", "arsenal", "leeds") <> ("7", "2024", "arsenal", "leeds") /\
  @FeatureCache.get demo_codec
    (@FeatureCache.set demo_codec ∅ "7" "2025" "arsenal" "leeds" 1%Q 1 demo_payload)
    "7" "2024" "arsenal" "leeds" 1%Q
  = inr None.
Proof.
  assert (Hne : ("7", "2025", "arsenal", "leeds") <> ("7", "2024", "arsenal", "leeds"))
    by discriminate.
  split; [exact Hne|].
  exact (eq_trans
           (proj1 (proj2 (@cache_upsert demo_codec ∅ "7" "2025" "arsenal" "leeds"
                            "7" "2024" "arsenal" "leeds" 1%Q 1%Q 1%Q 1 1
                            demo_payload demo_payload)) Hne)
           eq_refl).
Defined.

(** ** Lineage *)

Lemma feature_lineage_fold (st : FeatureStore.t) (l : list string)
    (acc : gmap string FeatureOrigin) (f : string) :
  foldl (fun lineage feature => <[feature := origin_of st feature]> lineage) acc l !! f
  = if decide (f ∈ l) then Some (origin_of st f) else acc !! f.
Proof.
  revert acc. induction l as [|x l IH]; intros acc; cbn [foldl].
  - rewrite decide_False; [done|]. apply not_elem_of_nil.
  - rewrite IH. destruct (decide (f ∈ l)) as [Hin|Hnin].
    + rewrite decide_True; [done|]. by right.
    + destruct (decide (f = x)) as [->|Hne].
      * rewrite decide_True by left. by rewrite lookup_insert_eq.
      * rewrite decide_False.
        -- by rewrite lookup_insert_ne.
        -- intros Hc. apply elem_of_cons in Hc as [?|?]; done.
Qed.

(** [feature_lineage] classifies the required names and only them: a name
    of the loaded columns is direct, even when it is also in the derived
    set; otherwise a name of the derived columns is derived; every other
    required name is unknown. *)
Theorem feature_lineage_classifies (st : FeatureStore.t) (f : string) :
  (f ∉ FeatureStore.required_features st -> feature_lineage st !! f = None) /\
  (f ∈ FeatureStore.required_features st ->
   (f ∈ FeatureStore._baseline_columns st -> feature_lineage st !! f = Some DIRECT) /\
   (f ∉ FeatureStore._baseline_columns st -> f ∈ FeatureStore._derived_columns st ->
    feature_lineage st !! f = Some DERIVED) /\
   (f ∉ FeatureStore._baseline_columns st -> f ∉ FeatureStore._derived_columns st ->
    feature_lineage st !! f = Some UNKNOWN)).
Proof.
  unfold feature_lineage. rewrite feature_lineage_fold, lookup_empty. split.
  - intros Hnin. by rewrite decide_False.
  - intros Hin. rewrite decide_True by done. unfold origin_of.
    repeat split; intros; repeat case_decide; done.
Qed.

Lemma feature_lineage_classifies_witness :
  "market_vs_elo_edge" ∈ FeatureStore.required_features demo_store /\
  feature_lineage demo_store !! "market_vs_elo_edge" = Some UNKNOWN.
Proof.
  assert (Hin : "market_vs_elo_edge" ∈ FeatureStore.required_features demo_store)
    by (apply (bool_decide_unpack _); vm_compute; reflexivity).
  split; [exact Hin|].
  refine (proj2 (proj2 (proj2 (feature_lineage_classifies demo_store
                                 "market_vs_elo_edge") Hin)) _ _);
    apply (bool_decide_unpack _); vm_compute; reflexivity.
Defined.

(** ** What a lookup changes and returns *)

Section LookupFacts.
Context `{JsonCodec}.

Lemma same_config_refl (st : FeatureStore.t) : same_config st st.
Proof. by unfold same_config. Qed.

Lemma same_config_trans (st1 st2 st3 : FeatureStore.t) :
same_config st1 st2 -> same_config st2 st3 -> same_config st1 st3.
Proof.
unfold same_config. intros (?&?&?&?&?&?) (?&?&?&?&?&?).
repeat split; congruence.
Qed.

Lemma resolve_feature_config (row : Fixture.row) (features : gmap string Q)
  (st : FeatureStore.t) (feature : string) :
same_config st (resolve_feature row (features, st) feature).2 /\
FeatureStore.cache (resolve_feature row (features, st) feature).2
= FeatureStore.cache st.
Proof.
unfold resolve_feature.
destruct (Fixture.cells row !! feature ≫= numeric);
  [split; [apply same_config_refl|done]|].
cbn. case_decide; [|split; [apply same_config_refl|done]].
by unfold same_config, warn_unknown.
Qed.

Lemma resolve_features_config (row : Fixture.row) (l : list string)
  (features : gmap string Q) (st : FeatureStore.t) :
same_config st (foldl (resolve_feature row) (features, st) l).2 /\
FeatureStore.cache (foldl (resolve_feature row) (features, st) l).2
= FeatureStore.cache st.
Proof.
revert features st. induction l as [|x l IH]; intros features st.
- split; [apply same_config_refl|done].
- cbn [foldl].
  pose proof (resolve_feature_config row features st x) as [Hc Hk].
  destruct (resolve_feature row (features, st) x) as [features' st'].
  cbn in Hc, Hk. destruct (IH features' st') as [Hc' Hk']. split.
  + by eapply same_config_trans.
  + congruence.
Qed.

Lemma store_features_config (st : FeatureStore.t) (row : Fixture.row)
  (features : gmap string Q) :
same_config st (store_features st row features).
Proof.
unfold store_features. destruct (FeatureStore.cache st); [|apply same_config_refl].
by destruct (cache_key row) as [[? ?] ?].
Qed.

(** The map the loop builds is a function of the row and of the list of
  required names. *)
Lemma resolve_features_map (st : FeatureStore.t) (row : Fixture.row) (f : string) :
(resolve_features st row).1 !! f
= if decide (f ∈ FeatureStore.required_features st)
  then Some (resolved_value row f) else None.
Proof.
unfold resolve_features. by rewrite resolve_features_fold, lookup_empty.
Qed.

Lemma resolve_features_same (st st' : FeatureStore.t) (row : Fixture.row) :
FeatureStore.required_features st' = FeatureStore.required_features st ->
(resolve_features st' row).1 = (resolve_features st row).1.
Proof.
intros Hreq. apply map_eq. intros f.
by rewrite !resolve_features_map, Hreq.
Qed.

Lemma _build_features_from_row_cases (st : FeatureStore.t) (row : Fixture.row) :
(exists e, _build_features_from_row st row = (inl e, st)) \/
(exists cached, cached <> ∅ /\ cached_features st row = inr (Some cached) /\
   _build_features_from_row st row = (inr (fixture_of row cached), st)) \/
((cached_features st row = inr None \/ cached_features st row = inr (Some ∅)) /\
 _build_features_from_row st row
 = (inr (fixture_of row (resolve_features st row).1),
    store_features (resolve_features st row).2 row (resolve_features st row).1)).
Proof.
unfold _build_features_from_row.
destruct (resolve_features st row) as [features st1] eqn:Hres. cbn [fst snd].
destruct (cached_features st row) as [e|[cached|]].
- left. by exists e.
- case_decide as He.
  + right. right. subst cached. split; [by right|done].
  + right. left. by exists cached.
- right. right. split; [by left|done].
Qed.

(** A second lookup of a row is answered like the first: after a lookup
  that was not served from the cache has stored its feature map, the next
  lookup of the row returns the same fixture (given that the JSON text of
  the map decodes to the map), and no lookup changes the configuration of
  the store. *)
Theorem repeated_lookup_same_answer (st st' : FeatureStore.t) (row : Fixture.row)
  (db : gmap FeatureCache.key FeatureCache.entry) (ff : FixtureFeatures) :
FeatureStore.cache st = Some db ->
cached_features st row = inr None \/ cached_features st row = inr (Some ∅) ->
_build_features_from_row st row = (inr ff, st') ->
json_loads (json_dumps (ff_features ff)) = Some (ff_features ff) ->
same_config st st' /\
cached_features st' row = inr (Some (ff_features ff)) /\
(_build_features_from_row st' row).1 = inr ff.
Proof.
intros Hdb Hmiss Hfirst Hcodec.
destruct (_build_features_from_row_cases st row)
  as [(e & He)|[(cached & Hne & Hc & _)|(_ & Hb)]].
- rewrite He in Hfirst. discriminate.
- exfalso. destruct Hmiss as [Hm|Hm]; rewrite Hm in Hc; [done|].
  injection Hc as <-. done.
- rewrite Hb in Hfirst. injection Hfirst as <- <-. cbn [ff_features] in *.
  pose proof (resolve_features_config row (FeatureStore.required_features st) ∅ st)
    as [Hcfg Hk].
  fold (resolve_features st row) in Hcfg, Hk.
  set (features := (resolve_features st row).1) in *.
  set (st1 := (resolve_features st row).2) in *.
  assert (Hcodec' : json_loads (json_dumps features) = Some features)
    by exact Hcodec.
  assert (Hcfg' : same_config st (store_features st1 row features)).
  { eapply same_config_trans; [exact Hcfg|apply store_features_config]. }
  assert (Hget : cached_features (store_features st1 row features) row
                 = inr (Some features)).
  { unfold cached_features, store_features. rewrite Hk, Hdb.
    destruct (cache_key row) as [[season home] away]. cbn.
    destruct Hcfg as (Hv & Hm & _). rewrite Hv, Hm.
    unfold FeatureCache.get, FeatureCache.set. rewrite lookup_insert_eq.
    cbn [FeatureCache.dataset_mtime FeatureCache.payload].
    destruct (Qlt_le_dec _ _) as [Hlt|_]; [|by rewrite Hcodec'].
    exfalso. unfold FeatureCache.tolerance in Hlt.
    assert (E : (FeatureStore.dataset_mtime st - FeatureStore.dataset_mtime st == 0)%Q)
      by ring.
    rewrite E in Hlt. change (Qabs 0) with 0%Q in Hlt. lra. }
  split; [exact Hcfg'|]. split; [exact Hget|].
  destruct (_build_features_from_row_cases (store_features st1 row features) row)
    as [(e & He)|[(cached & Hne & Hc & Hb2)|(_ & Hb2)]].
  + unfold _build_features_from_row in He. rewrite Hget in He.
    case_decide; [|done].
    by destruct (resolve_features (store_features st1 row features) row).
  + rewrite Hget in Hc. injection Hc as <-. by rewrite Hb2.
  + rewrite Hb2. cbn [fst]. do 2 f_equal.
    apply resolve_features_same. by destruct Hcfg' as (_ & _ & _ & ? & _).
Qed.
End LookupFacts.

Lemma repeated_lookup_same_answer_witness :
  FeatureStore.cache first_store = Some ∅ /\
  @cached_features demo_codec first_store demo_row = inr None /\
  @_build_features_from_row demo_codec first_store demo_row
  = (inr (fixture_of demo_row demo_payload), first_store_after) /\
  (@_build_features_from_row demo_codec first_store_after demo_row).1
  = inr (fixture_of demo_row demo_payload).
Proof.
  assert (H1 : FeatureStore.cache first_store = Some ∅) by reflexivity.
  assert (H2 : @cached_features demo_codec first_store demo_row = inr None)
    by (vm_compute; reflexivity).
  assert (H3 : @_build_features_from_row demo_codec first_store demo_row
               = (inr (fixture_of demo_row demo_payload), first_store_after))
    by (vm_compute; reflexivity).
  assert (H4 : @json_loads demo_codec (@json_dumps demo_codec
                 (ff_features (fixture_of demo_row demo_payload)))
               = Some (ff_features (fixture_of demo_row demo_payload)))
    by (vm_compute; reflexivity).
  split; [exact H1|]. split; [exact H2|]. split; [exact H3|].
  exact (proj2 (proj2 (@repeated_lookup_same_answer demo_codec first_store
                         first_store_after demo_row ∅ _ H1 (or_introl H2) H3 H4))).
Defined.

Section Warnings.
Context `{JsonCodec}.

Lemma resolve_feature_unknown (st0 : FeatureStore.t) (row : Fixture.row)
  (features : gmap string Q) (st : FeatureStore.t) (feature : string) :
same_config st0 st -> feature ∈ FeatureStore.required_features st0 ->
warnings_about_unknown st0 st ->
warnings_about_unknown st0 (resolve_feature row (features, st) feature).2.
Proof.
intros (Hv & _ & _ & Hreq & Hbase & Hder) Hin Hst. unfold resolve_feature.
destruct (Fixture.cells row !! feature ≫= numeric); [done|]. cbn.
case_decide as Hd; [|done]. destruct Hd as [Horigin _].
intros f v Hfv. unfold warn_unknown in Hfv. cbn in Hfv.
apply elem_of_app in Hfv as [Hold|Hnew]; [by apply Hst|].
apply list_elem_of_singleton in Hnew. injection Hnew as -> ->.
unfold feature_lineage in Horigin.
rewrite feature_lineage_fold, lookup_empty, decide_True in Horigin
  by (by rewrite Hreq).
cbn in Horigin. unfold origin_of in Horigin.
rewrite Hbase, Hder in Horigin. repeat case_decide; done.
Qed.

Lemma resolve_features_unknown (st0 : FeatureStore.t) (row : Fixture.row)
  (l : list string) (features : gmap string Q) (st : FeatureStore.t) :
same_config st0 st -> (forall f, f ∈ l -> f ∈ FeatureStore.required_features st0) ->
warnings_about_unknown st0 st ->
warnings_about_unknown st0 (foldl (resolve_feature row) (features, st) l).2.
Proof.
revert features st. induction l as [|x l IH]; intros features st Hcfg Hl Hst; [done|].
cbn [foldl].
pose proof (resolve_feature_unknown st0 row features st x Hcfg
              (Hl x ltac:(left)) Hst) as Hstep.
pose proof (resolve_feature_config row features st x) as [Hc _].
destruct (resolve_feature row (features, st) x) as [features' st'].
cbn in Hstep, Hc. apply IH; [|intros f Hf; apply Hl; by right|done].
by eapply same_config_trans.
Qed.

Lemma store_features_warnings (st : FeatureStore.t) (row : Fixture.row)
  (features : gmap string Q) :
FeatureStore.warnings (store_features st row features) = FeatureStore.warnings st.
Proof.
unfold store_features. destruct (FeatureStore.cache st); [|done].
by destruct (cache_key row) as [[? ?] ?].
Qed.

Lemma _build_features_from_row_unknown (st0 st : FeatureStore.t) (row : Fixture.row) :
same_config st0 st -> warnings_about_unknown st0 st ->
same_config st0 (_build_features_from_row st row).2 /\
warnings_about_unknown st0 (_build_features_from_row st row).2.
Proof.
intros Hcfg Hst.
destruct (_build_features_from_row_cases st row)
  as [(e & ->)|[(cached & _ & _ & ->)|(_ & ->)]]; [done..|].
cbn [snd].
pose proof (resolve_features_config row (FeatureStore.required_features st) ∅ st)
  as [Hc _].
fold (resolve_features st row) in Hc. split.
- eapply same_config_trans; [exact Hcfg|].
  eapply same_config_trans; [exact Hc|apply store_features_config].
- unfold warnings_about_unknown. rewrite store_features_warnings.
  apply resolve_features_unknown; [done| |done].
  intros f Hf. destruct Hcfg as (_ & _ & _ & Hreq & _). by rewrite <- Hreq.
Qed.

Lemma step_unknown (st0 st : FeatureStore.t) (c : call) :
same_config st0 st -> warnings_about_unknown st0 st ->
same_config st0 (step st c) /\ warnings_about_unknown st0 (step st c).
Proof.
intros Hcfg Hst. destruct c as [season home away|match_id]; cbn.
- unfold get_fixture. destruct (filter _ _); [done|].
  by apply _build_features_from_row_unknown.
- unfold get_fixture_by_id. destruct (filter _ _); [done|].
  by apply _build_features_from_row_unknown.
Qed.

(** Whatever calls a store serves, it keeps its configuration, and every
  warning it has logged names a required feature that is in neither the
  loaded nor the derived columns, together with the dataset version: a
  missing cell of a known column is defaulted silently. *)
Theorem warnings_only_for_unknown_features (st : FeatureStore.t) (calls : list call) :
FeatureStore.warnings st = [] ->
same_config st (run st calls) /\ warnings_about_unknown st (run st calls).
Proof.
intros Hw.
assert (Hgen : forall st', same_config st st' -> warnings_about_unknown st st' ->
          same_config st (run st' calls) /\ warnings_about_unknown st (run st' calls)).
{ unfold run. induction calls as [|c calls IH]; intros st' Hcfg Hst; [done|].
  cbn [foldl]. destruct (step_unknown st st' c Hcfg Hst) as [Hcfg' Hst'].
  by apply IH. }
apply Hgen; [apply same_config_refl|].
intros f v Hfv. rewrite Hw in Hfv. by apply elem_of_nil in Hfv.
Qed.

(** A lookup that returns a fixture returns the one asked for: the match id
  of [get_fixture_by_id], the season and (up to case) the team names of
  [get_fixture]; and either raises its not-found error only when no row of
  the dataset matches, leaving the store unchanged. *)
Theorem lookup_returns_requested_fixture (st st' : FeatureStore.t)
  (season : option string) (home away : string) (match_id : Z) :
(forall ff, get_fixture_by_id st match_id = (inr ff, st') ->
   ff_match_id ff = match_id) /\
(forall ff, get_fixture st season home away = (inr ff, st') ->
   ff_season ff = season_or_latest st season /\
   lower (ff_home_team ff) = lower home /\
   lower (ff_away_team ff) = lower away) /\
(forall msg, get_fixture_by_id st match_id = (inl (ValueError msg), st') ->
   st' = st /\
   forall r, r ∈ FeatureStore.df st -> Fixture.match_id r <> match_id) /\
(forall msg, get_fixture st season home away = (inl (ValueError msg), st') ->
   st' = st /\
   forall r, r ∈ FeatureStore.df st ->
             ~ fixture_mask (season_or_latest st season) home away r).
Proof.
assert (Hbuild : forall row res st1,
          _build_features_from_row st row = (res, st1) ->
          (forall ff, res = inr ff ->
             ff_match_id ff = Fixture.match_id row /\
             ff_season ff = Fixture.season row /\
             ff_home_team ff = Fixture.home_team_name row /\
             ff_away_team ff = Fixture.away_team_name row) /\
          (forall msg, res <> inl (ValueError msg))).
{ intros row res st1 Hb.
  destruct (_build_features_from_row_cases st row)
    as [(e & He)|[(cached & _ & _ & He)|(_ & He)]];
    rewrite He in Hb; injection Hb as <- <-.
  - split; [done|]. intros msg Hmsg.
    assert (He' : e = ValueError msg) by congruence. subst e.
    unfold _build_features_from_row in He.
    destruct (cached_features st row) as [e'|[c|]] eqn:Hc.
    + injection He as He. subst e'. unfold cached_features in Hc.
      destruct (FeatureStore.cache st); [|done].
      destruct (cache_key row) as [[? ?] ?]. unfold FeatureCache.get in Hc.
      destruct (_ !! _); [|done]. destruct (Qlt_le_dec _ _); [done|].
      by destruct (json_loads _).
    + case_decide; [|done]. by destruct (resolve_features st row).
    + by destruct (resolve_features st row).
  - split; [|done]. by intros ff [= <-].
  - split; [|done]. by intros ff [= <-]. }
split; [|split; [|split]].
- intros ff Hget. unfold get_fixture_by_id in Hget.
  destruct (filter _ _) as [|row l] eqn:Hf; [done|].
  assert (Hin : row ∈ filter (fun r => Fixture.match_id r = match_id)
                        (FeatureStore.df st)) by (rewrite Hf; left).
  apply list_elem_of_filter in Hin as [Hid _].
  destruct (Hbuild row _ _ Hget) as [Hff _].
  destruct (Hff ff eq_refl) as (-> & _). done.
- intros ff Hget. unfold get_fixture in Hget.
  destruct (filter _ _) as [|row l] eqn:Hf; [done|].
  assert (Hin : row ∈ filter (fixture_mask (season_or_latest st season) home away)
                        (FeatureStore.df st)) by (rewrite Hf; left).
  apply list_elem_of_filter in Hin as [(Hs & Hh & Ha) _].
  destruct (Hbuild row _ _ Hget) as [Hff _].
  destruct (Hff ff eq_refl) as (_ & -> & -> & ->). done.
- intros msg Hget. unfold get_fixture_by_id in Hget.
  destruct (filter _ _) as [|row l] eqn:Hf.
  + injection Hget as _ <-. split; [done|].
    by apply (proj1 (filter_nil_iff (fun r => Fixture.match_id r = match_id) _)).
  + exfalso. destruct (Hbuild row _ _ Hget) as [_ Hno]. by apply (Hno msg).
- intros msg Hget. unfold get_fixture in Hget.
  destruct (filter _ _) as [|row l] eqn:Hf.
  + injection Hget as _ <-. split; [done|].
    by apply (proj1 (filter_nil_iff _ _)).
  + exfalso. destruct (Hbuild row _ _ Hget) as [_ Hno]. by apply (Hno msg).
Qed.
End Warnings.

Lemma warnings_only_for_unknown_features_witness :
  FeatureStore.warnings demo_store = [] /\
  warnings_about_unknown demo_store
    (@run demo_codec demo_store [GetFixture (Some "2025") "Arsenal" "Leeds"]).
Proof.
  assert (Hw : FeatureStore.warnings demo_store = []) by reflexivity.
  split; [exact Hw|].
  exact (proj2 (@warnings_only_for_unknown_features demo_codec demo_store
                  [GetFixture (Some "2025") "Arsenal" "Leeds"] Hw)).
Defined.

Lemma lookup_returns_requested_fixture_witness :
  match @get_fixture demo_codec demo_store (Some "2025") "arsenal" "LEEDS" with
  | (inr ff, _) => ff_season ff = "2025" /\ ff_home_team ff = "Arsenal"
  | (inl _, _) => False
  end.
Proof.
  destruct (@get_fixture demo_codec demo_store (Some "2025") "arsenal" "LEEDS")
    as [[e|ff] st'] eqn:Hget.
  - vm_compute in Hget. discriminate Hget.
  - split.
    + exact (proj1 (proj1 (proj2 (@lookup_returns_requested_fixture demo_codec
                demo_store st' (Some "2025") "arsenal" "LEEDS" 0)) ff Hget)).
    + vm_compute in Hget. injection Hget as <- _. reflexivity.
Defined.

(** ** Required features *)



(** ** The dataset version *)

Lemma take_digits_split (s : string) :
  all_digits (take_digits s) = true /\
  exists rest, s = take_digits s +:+ rest /\ digit_free_start rest = true.
Proof.
  induction s as [|c s (IH1 & rest & IH2 & IH3)]; cbn.
  - split; [done|]. by exists "".
  - destruct (is_digit c) eqn:Hc; cbn.
    + rewrite Hc. split; [done|]. exists rest.
      split; [change (String c s = String c (take_digits s +:+ rest)); by f_equal|done].
    + split; [done|]. exists (String c s). split; [done|]. cbn. by rewrite Hc.
Qed.

(** [_extract_dataset_version] returns the leftmost run of digits of the
    label, whole: the text in front of it has no digit, the text behind it
    does not go on with a digit, and the run is not empty; it returns
    nothing exactly for a missing label or one without a digit. *)
Theorem extract_dataset_version_spec (dataset_label : option string) :
  (forall v, _extract_dataset_version dataset_label = Some v ->
     v <> "" /\ all_digits v = true /\
     exists label before behind,
       dataset_label = Some label /\ label = before +:+ v +:+ behind /\
       has_digit before = false /\ digit_free_start behind = true) /\
  (_extract_dataset_version dataset_label = None <->
   forall label, dataset_label = Some label -> has_digit label = false).
Proof.
  assert (Hfd : forall s,
            (forall v, first_digits s = Some v ->
               v <> "" /\ all_digits v = true /\
               exists before behind, s = before +:+ v +:+ behind /\
                 has_digit before = false /\ digit_free_start behind = true) /\
            (first_digits s = None <-> has_digit s = false)).
  { induction s as [|c s [IH1 IH2]]; cbn.
    - split; [done|]. done.
    - destruct (is_digit c) eqn:Hc; cbn.
      + split; [|done]. intros v [= <-].
        destruct (take_digits_split s) as (Hd & rest & Hs & Hrest).
        split; [done|]. split; [cbn; by rewrite Hc|].
        exists "", rest.
        split; [change (String c s = String c (take_digits s +:+ rest)); by f_equal|done].
      + split; [|done]. intros v Hv.
        destruct (IH1 v Hv) as (Hne & Hd & before & behind & Hs & Hb & Hbh).
        split; [done|]. split; [done|].
        exists (String c before), behind.
        split; [change (String c s = String c (before +:+ v +:+ behind)); by f_equal|].
        cbn. by rewrite Hc. }
  destruct dataset_label as [label|]; cbn.
  - case_decide as He.
    + subst label. split; [done|]. split; [|done]. by intros _ l [= <-].
    + destruct (Hfd label) as [H1 H2]. split.
      * intros v Hv. destruct (H1 v Hv) as (? & ? & before & behind & ? & ? & ?).
        split; [done|]. split; [done|]. by exists label, before, behind.
      * rewrite H2. split; [by intros ? l [= <-]|]. intros Hl. by apply Hl.
  - split; [done|]. split; [done|]. by intros _.
Qed.

Lemma extract_dataset_version_spec_witness :
  _extract_dataset_version (Some "Dataset_Version_7") = Some "7" /\
  exists label before behind,
    Some "Dataset_Version_7" = Some label /\ label = before +:+ "7" +:+ behind /\
    has_digit before = false /\ digit_free_start behind = true.
Proof.
  assert (He : _extract_dataset_version (Some "Dataset_Version_7") = Some "7")
    by reflexivity.
  split; [exact He|].
  exact (proj2 (proj2 (proj1 (extract_dataset_version_spec (Some "Dataset_Version_7"))
                         "7" He))).
Defined.

Lemma truthy_Some (v : string) : truthy (Some v) = true <-> v <> "".
Proof.
  unfold truthy. destruct (decide (v = "")) as [->|Hne].
  - by rewrite bool_decide_eq_true_2.
  - by rewrite bool_decide_eq_false_2.
Qed.

Lemma first_digits_nonempty (s v : string) : first_digits s = Some v -> v <> "".
Proof.
  induction s as [|c s IH]; cbn; [done|].
  destruct (is_digit c) eqn:Hc; [|done]. by intros [= <-].
Qed.

Lemma _extract_dataset_version_truthy (label : option string) (v : string) :
  _extract_dataset_version label = Some v -> truthy (Some v) = true.
Proof.
  intros Hv. apply truthy_Some. destruct label as [l|]; cbn in Hv; [|done].
  case_decide; [done|]. by eapply first_digits_nonempty.
Qed.

Lemma first_digits_all_digits (s : string) :
  s <> "" -> all_digits s = true -> first_digits s = Some s.
Proof.
  assert (Ht : forall t, all_digits t = true -> take_digits t = t).
  { induction t as [|c t IH]; cbn; [done|].
    destruct (is_digit c); cbn; [|done]. intros Hd. by rewrite IH. }
  destruct s as [|c s]; [done|]. intros _ Hd.
  pose proof (Ht _ Hd) as Hs. cbn in *.
  destruct (is_digit c); [|done]. by rewrite Hs.
Qed.

Lemma dataset_versions_nonempty (run : Notebook.run) (v : string) :
  v ∈ dataset_versions run -> v <> "".
Proof.
  unfold dataset_versions.
  assert (Hgen : forall l acc, (forall x, x ∈ acc -> x <> "") ->
            forall x, x ∈ foldl (fun versions model =>
                match _extract_dataset_version (Notebook.dataset_label model) with
                | Some version =>
                    if decide (version = "" \/ version ∈ versions) then versions
                    else versions ++ [version]
                | None => versions
                end) acc l -> x <> "").
  { induction l as [|m l IH]; intros acc Hacc; [done|]. cbn [foldl].
    apply IH. destruct (_extract_dataset_version _) as [version|]; [|done].
    case_decide as Hd; [done|]. intros x Hx.
    apply elem_of_app in Hx as [Hx|Hx]; [by apply Hacc|].
    apply list_elem_of_singleton in Hx as ->. tauto. }
  apply Hgen. intros x Hx. by apply elem_of_nil in Hx.
Qed.

Lemma head_filter_nonempty (l : list string) :
  (forall v, v ∈ l -> v <> "") -> head (filter (fun v => v <> "") l) = head l.
Proof.
  intros Hl. f_equal. induction l as [|x l IH]; [done|].
  rewrite filter_cons_True by (apply Hl; left). f_equal.
  apply IH. intros v Hv. apply Hl. by right.
Qed.

(** [resolve_dataset_version] goes by priority: a non-empty explicit
    version; else the digits of the label; else the first non-empty
    fallback version; it never returns an empty version, and returns
    nothing only when all three sources are exhausted. *)
Theorem resolve_dataset_version_priority (explicit_version dataset_label : option string)
    (fallback_versions : list string) :
  let resolved := resolve_dataset_version explicit_version dataset_label fallback_versions in
  (truthy explicit_version = true -> resolved = explicit_version) /\
  (truthy explicit_version = false ->
   forall v, _extract_dataset_version dataset_label = Some v -> resolved = Some v) /\
  (truthy explicit_version = false -> _extract_dataset_version dataset_label = None ->
   resolved = head (filter (fun v => v <> "") fallback_versions)) /\
  (forall v, resolved = Some v -> v <> "") /\
  (resolved = None <->
   truthy explicit_version = false /\ _extract_dataset_version dataset_label = None /\
   forall v, v ∈ fallback_versions -> v = "").
Proof.
  intros resolved. subst resolved. unfold resolve_dataset_version.
  destruct (truthy explicit_version) eqn:He.
  - split; [done|]. split; [done|]. split; [done|]. split.
    + intros v ->. by apply truthy_Some.
    + split; [|by intros (? & _)]. intros ->. done.
  - split; [done|]. split; [by intros _ v ->|]. split; [by intros _ ->|].
    destruct (_extract_dataset_version dataset_label) as [lv|] eqn:Hl.
    + split; [|split; [done|by intros (_ & ? & _)]].
      intros v [= <-]. eapply truthy_Some, _extract_dataset_version_truthy, Hl.
    + split.
      * intros v Hv. apply head_Some_elem_of in Hv.
        by apply list_elem_of_filter in Hv as [? _].
      * rewrite head_None. split.
        -- intros Hnil. split; [done|]. split; [done|]. intros v Hv.
           destruct (decide (v = "")) as [|Hne]; [done|]. exfalso.
           by apply (proj1 (filter_nil_iff _ _) Hnil v).
        -- intros (_ & _ & Hall). apply filter_nil_iff. intros v Hv Hne.
           by apply Hne, Hall.
Qed.

Lemma resolve_dataset_version_priority_witness :
  truthy None = false /\
  _extract_dataset_version (Some "Dataset_Version_7") = Some "7" /\
  resolve_dataset_version None (Some "Dataset_Version_7") ["9"] = Some "7".
Proof.
  assert (H1 : truthy None = false) by reflexivity.
  assert (H2 : _extract_dataset_version (Some "Dataset_Version_7") = Some "7")
    by reflexivity.
  split; [exact H1|]. split; [exact H2|].
  exact (proj1 (proj2 (resolve_dataset_version_priority None
                         (Some "Dataset_Version_7") ["9"])) H1 "7" H2).
Defined.

Lemma _guess_version_from_name_digits (name v : string) :
  _guess_version_from_name name = Some v ->
  _extract_dataset_version (Some v) = Some v.
Proof.
  unfold _guess_version_from_name. intros Hv. apply head_Some_elem_of in Hv.
  apply list_elem_of_filter in Hv as [Hd _]. unfold isdigit in Hd.
  apply andb_true_iff in Hd as [Hne Hd]. apply negb_true_iff in Hne.
  apply bool_decide_eq_false in Hne. cbn. rewrite decide_False by done.
  by apply first_digits_all_digits.
Qed.

(** The dataset version of a store is never empty and goes by priority: the
    version the caller gives; else the environment override; else the
    digits of the label of the first model of the discovered run; else the
    first version among the labels of its models; else the first all-digit
    token of the name of the dataset file; else the default "7". *)
Theorem init_dataset_version_priority (dataset_version env_version : option string)
    (notebook_run : option Notebook.run) (dataset_path_name : option string) :
  let version :=
    init_dataset_version dataset_version env_version notebook_run dataset_path_name in
  version <> "" /\
  (forall v, dataset_version = Some v -> v <> "" -> version = v) /\
  (truthy dataset_version = false ->
   (forall v, env_version = Some v -> v <> "" -> version = v) /\
   (truthy env_version = false ->
    (forall v, _extract_dataset_version (notebook_label notebook_run) = Some v ->
               version = v) /\
    (_extract_dataset_version (notebook_label notebook_run) = None ->
     (forall v, head (notebook_versions notebook_run) = Some v -> version = v) /\
     (notebook_versions notebook_run = [] ->
      (forall name v, dataset_path_name = Some name ->
                      _guess_version_from_name name = Some v -> version = v) /\
      ((forall name, dataset_path_name = Some name ->
                     _guess_version_from_name name = None) ->
       version = DEFAULT_DATASET_VERSION))))).
Proof.
  intros version.
  assert (Hversions : head (filter (fun v => v <> "") (notebook_versions notebook_run))
                      = head (notebook_versions notebook_run)).
  { apply head_filter_nonempty. intros v Hv. destruct notebook_run as [run|]; cbn in Hv.
    - by eapply dataset_versions_nonempty.
    - by apply elem_of_nil in Hv. }
  assert (Hfinal : forall r v, r = Some v -> v <> "" ->
            (if truthy r then default DEFAULT_DATASET_VERSION r
             else DEFAULT_DATASET_VERSION) = v).
  { intros r v -> Hv. by rewrite (proj2 (truthy_Some v) Hv). }
  assert (Hpath : forall r v, r = Some v -> v <> "" ->
            match dataset_path_name with
            | Some name =>
                if truthy r then r
                else resolve_dataset_version None (_guess_version_from_name name) []
            | None => r
            end = Some v).
  { intros r v -> Hv. destruct dataset_path_name; [|done].
    by rewrite (proj2 (truthy_Some v) Hv). }
  subst version. unfold init_dataset_version.
  fold (notebook_label notebook_run). fold (notebook_versions notebook_run).
  split.
  { match goal with |- (if truthy ?r then _ else _) <> _ =>
      destruct r as [v|] eqn:Hr end; [|done].
    destruct (truthy (Some v)) eqn:Ht; [|done]. by apply truthy_Some. }
  split.
  { intros v -> Hv. rewrite (proj2 (truthy_Some v) Hv).
    apply Hfinal; [|done]. apply Hpath; [|done].
    unfold resolve_dataset_version. by rewrite (proj2 (truthy_Some v) Hv). }
  intros Hdv. rewrite Hdv. cbv iota. split.
  { intros v -> Hv. apply Hfinal; [|done]. apply Hpath; [|done].
    unfold resolve_dataset_version. by rewrite (proj2 (truthy_Some v) Hv). }
  intros Henv.
  assert (Hres : resolve_dataset_version env_version (notebook_label notebook_run)
                   (notebook_versions notebook_run)
                 = match _extract_dataset_version (notebook_label notebook_run) with
                   | Some lv => Some lv
                   | None => head (notebook_versions notebook_run)
                   end).
  { unfold resolve_dataset_version. by rewrite Henv, Hversions. }
  rewrite Hres. split.
  { intros v Hl. rewrite Hl.
    pose proof (proj1 (truthy_Some v) (_extract_dataset_version_truthy _ _ Hl)) as Hv.
    apply Hfinal; [|done]. by apply Hpath. }
  intros Hl. rewrite Hl. split.
  { intros v Hh. rewrite Hh.
    assert (Hv : v <> "").
    { destruct notebook_run as [run|]; [|done].
      eapply dataset_versions_nonempty, head_Some_elem_of, Hh. }
    apply Hfinal; [|done]. by apply Hpath. }
  intros Hnil. rewrite Hnil. cbn [head truthy]. split.
  - intros name v -> Hg.
    assert (Hr : resolve_dataset_version None (Some v) [] = Some v).
    { unfold resolve_dataset_version. cbn [truthy].
      by rewrite (_guess_version_from_name_digits name v Hg). }
    rewrite Hg, Hr.
    pose proof (proj1 (truthy_Some v)
                  (_extract_dataset_version_truthy _ _
                     (_guess_version_from_name_digits name v Hg))) as Hv.
    by rewrite (proj2 (truthy_Some v) Hv).
  - intros Hnone. destruct dataset_path_name as [name|]; [|done].
    by rewrite (Hnone name eq_refl).
Qed.

Lemma init_dataset_version_priority_witness :
  truthy None = false /\
  _extract_dataset_version (notebook_label (Some demo_run)) = Some "7" /\
  init_dataset_version None None (Some demo_run) (Some "Dataset_Version_9.csv") = "7".
Proof.
  assert (H1 : truthy None = false) by reflexivity.
  assert (H2 : _extract_dataset_version (notebook_label (Some demo_run)) = Some "7")
    by reflexivity.
  split; [exact H1|]. split; [exact H2|].
  exact (proj1 (proj2 (proj2 (proj2 (init_dataset_version_priority None None
           (Some demo_run) (Some "Dataset_Version_9.csv"))) H1) H1) "7" H2).
Defined.

(** ** The team view: sort, points and rest *)

Lemma insert_row_filter (k x : Long.base) (l : list Long.base) :
  filter (same_key k) (insert_row x l)
  = if decide (same_key k x) then x :: filter (same_key k) l
    else filter (same_key k) l.
Proof.
  induction l as [|y l IH]; cbn [insert_row].
  - rewrite filter_cons, filter_nil. by case_decide.
  - destruct (decide (key_le x y)) as [Hle|Hnle].
    + rewrite filter_cons. by case_decide.
    + rewrite (filter_cons _ y (insert_row x l)), IH, (filter_cons _ y l).
      destruct (decide (same_key k x)) as [[Hx1 Hx2]|Hkx]; [|done].
      destruct (decide (same_key k y)) as [[Hy1 Hy2]|Hky]; [exfalso|done].
      apply Hnle. unfold key_le. right. split; lia.
Qed.

(** [sort_values] orders the rows by team and kickoff, keeps every row, and
    is stable: the rows that share a team and a kickoff come out in the
    order they went in. *)
Theorem sort_values_stable (df : list Long.base) (k : Long.base) :
  StronglySorted key_le (sort_values df) /\
  sort_values df ≡ₚ df /\
  filter (same_key k) (sort_values df) = filter (same_key k) df.
Proof.
  split; [apply sort_values_sorted|]. split; [apply sort_values_perm|].
  induction df as [|x df IH]; [done|]. cbn [sort_values foldr].
  fold (sort_values df). rewrite insert_row_filter, IH, filter_cons.
  by case_decide.
Qed.

Lemma outcome_points_cases (code : string) :
  outcome_points code = (3, 0)%Z \/ outcome_points code = (0, 3)%Z \/
  outcome_points code = (1, 1)%Z.
Proof.
  unfold outcome_points. destruct (String.eqb code "H"); [by left|].
  destruct (String.eqb code "A"); [right; by left|right; by right].
Qed.

Lemma view_row_source (matches : list Matches.row) (r : Long.row) :
  r ∈ compute_team_view matches ->
  exists m, m ∈ matches /\ (Long.cols r = home_row m \/ Long.cols r = away_row m).
Proof.
  intros Hr. apply (list_elem_of_fmap_2 Long.cols) in Hr.
  rewrite compute_team_view_cols in Hr. unfold long_frame in Hr.
  rewrite sort_values_perm in Hr. unfold home_df, away_df in Hr.
  apply elem_of_app in Hr as [Hr|Hr];
    apply list_elem_of_fmap in Hr as (m & -> & Hm); exists m; auto.
Qed.

(** Every row of the team view carries 3, 1 or 0 points; a code other
    than the home-win and away-win codes counts as a draw; and the two rows
    of a match share 3 points, or 2 in a draw. *)
Theorem view_points (matches : list Matches.row) (r : Long.row) (m : Matches.row) :
  (r ∈ compute_team_view matches ->
   Long.points r = 3%Z \/ Long.points r = 1%Z \/ Long.points r = 0%Z) /\
  (Matches.match_outcome_code m <> "H" -> Matches.match_outcome_code m <> "A" ->
   Long.points (home_row m) = 1%Z /\ Long.points (away_row m) = 1%Z) /\
  ((Long.points (home_row m) + Long.points (away_row m) = 3)%Z \/
   (Long.points (home_row m) + Long.points (away_row m) = 2)%Z).
Proof.
  split; [|split].
  - intros Hr. destruct (view_row_source matches r Hr) as (m' & _ & [-> | ->]); cbn;
      destruct (outcome_points_cases (Matches.match_outcome_code m'))
        as [-> | [-> | ->]]; cbn; auto.
  - intros HH HA. cbn. unfold outcome_points.
    rewrite (proj2 (String.eqb_neq _ _) HH), (proj2 (String.eqb_neq _ _) HA). done.
  - cbn. destruct (outcome_points_cases (Matches.match_outcome_code m))
      as [-> | [-> | ->]]; cbn; auto.
Qed.

Lemma view_points_witness :
  demo_third ∈ compute_team_view demo_matches /\ Long.points demo_third = 3%Z.
Proof.
  assert (Hin : demo_third ∈ compute_team_view demo_matches).
  { apply list_elem_of_lookup. exists 2. vm_compute. reflexivity. }
  split; [exact Hin|].
  destruct (proj1 (view_points demo_matches demo_third
                     (fixture 1 100 1 "Arsenal" 2 "Leeds" 2 1 None None "H")) Hin)
    as [H3|[H1|H0]]; [exact H3|discriminate H1|discriminate H0].
Defined.

(** ** The market block *)

Lemma market_normalized_row (m : Matches.row) (h0 d0 a0 : Q) :
  Matches.forecast_home_win m = Some h0 ->
  Matches.forecast_draw m = Some d0 ->
  Matches.forecast_away_win m = Some a0 ->
  exists h d a : Q,
    Market.forecast_home_win (add_market_features_row m) = Some h /\
    Market.forecast_draw (add_market_features_row m) = Some d /\
    Market.forecast_away_win (add_market_features_row m) = Some a /\
    (h + d + a == 1)%Q /\ (0 < h < 1)%Q /\ (0 < d < 1)%Q /\ (0 < a < 1)%Q.
Proof.
  intros Hh Hd Ha.
  set (c := Qclip epsilon (1 - epsilon)%Q).
  pose proof (clip_forecast_bounds h0) as [Bh _].
  pose proof (clip_forecast_bounds d0) as [Bd _].
  pose proof (clip_forecast_bounds a0) as [Ba _].
  fold c in Bh, Bd, Ba. unfold epsilon in Bh, Bd, Ba.
  assert (Hh0 : (0 < c h0)%Q) by lra.
  assert (Hd0 : (0 < c d0)%Q) by lra.
  assert (Ha0 : (0 < c a0)%Q) by lra.
  exists (c h0 / (c h0 + c d0 + c a0))%Q, (c d0 / (c h0 + c d0 + c a0))%Q,
         (c a0 / (c h0 + c d0 + c a0))%Q.
  unfold add_market_features_row, clip_forecast. rewrite Hh, Hd, Ha. cbn.
  split; [done|]. split; [done|]. split; [done|]. split.
  - field. lra.
  - split; [|split].
    + by apply share_bounds.
    + assert (E : (c h0 + c d0 + c a0 == c d0 + c h0 + c a0)%Q) by ring.
      rewrite E. by apply share_bounds.
    + assert (E : (c h0 + c d0 + c a0 == c a0 + c h0 + c d0)%Q) by ring.
      rewrite E. by apply share_bounds.
Qed.


(** For a row with its three forecasts present, the market columns are
    what their names say: the edge is home minus away and lies strictly
    between -1 and 1, the expected points are three times the win
    probability plus the draw probability, and the maximum probability is
    the largest of the three and at least one third. *)
Theorem market_block (m : Matches.row) (h0 d0 a0 : Q) :
  Matches.forecast_home_win m = Some h0 ->
  Matches.forecast_draw m = Some d0 ->
  Matches.forecast_away_win m = Some a0 ->
  let r := add_market_features_row m in
  exists h d a mx : Q,
    Market.forecast_home_win r = Some h /\ Market.forecast_draw r = Some d /\
    Market.forecast_away_win r = Some a /\
    Market.market_home_edge r = Some (h - a)%Q /\ (-1 < h - a < 1)%Q /\
    Market.market_expected_points_home r = Some (3 * h + d)%Q /\
    Market.market_expected_points_away r = Some (3 * a + d)%Q /\
    Market.market_max_prob r = Some mx /\
    (h <= mx)%Q /\ (d <= mx)%Q /\ (a <= mx)%Q /\ (1 # 3 <= mx)%Q /\
    (mx == h \/ mx == d \/ mx == a)%Q.
Proof.
  intros Hh Hd Ha r.
  destruct (market_normalized_row m h0 d0 a0 Hh Hd Ha)
    as (h & d & a & E1 & E2 & E3 & Hsum & Hbh & Hbd & Hba).
  fold r in E1, E2, E3.
  exists h, d, a, (Qmax d (Qmax a h)).
  assert (Hr : r = add_market_features_row m) by done.
  unfold add_market_features_row in Hr.
  assert (Hcols : Market.market_home_edge r
                  = nan_lift2 Qminus (Market.forecast_home_win r)
                      (Market.forecast_away_win r) /\
                  Market.market_expected_points_home r
                  = nan_lift2 Qplus ((fun x => 3 * x)%Q <$> Market.forecast_home_win r)
                      (Market.forecast_draw r) /\
                  Market.market_expected_points_away r
                  = nan_lift2 Qplus ((fun x => 3 * x)%Q <$> Market.forecast_away_win r)
                      (Market.forecast_draw r) /\
                  Market.market_max_prob r
                  = row_max [Market.forecast_home_win r; Market.forecast_draw r;
                             Market.forecast_away_win r]) by (by rewrite Hr).
  destruct Hcols as (C1 & C2 & C3 & C4).
  rewrite C1, C2, C3, C4, E1, E2, E3. cbn.
  pose proof (Q.le_max_l d (Qmax a h)). pose proof (Q.le_max_r d (Qmax a h)).
  pose proof (Q.le_max_l a h). pose proof (Q.le_max_r a h).
  repeat split; try done; try lra.
  destruct (Q.max_spec d (Qmax a h)) as [[_ ->]|[_ ->]];
    [destruct (Q.max_spec a h) as [[_ ->]|[_ ->]]|]; auto.
  - left. reflexivity.
  - right. right. reflexivity.
  - right. left. reflexivity.
Qed.

Lemma market_block_witness :
  exists mx : Q,
    Market.market_max_prob
      (add_market_features_row (fixture 1 100 1 "Arsenal" 2 "Leeds" 2 1 None None "H"))
    = Some mx /\ (1 # 3 <= mx)%Q.
Proof.
  destruct (market_block (fixture 1 100 1 "Arsenal" 2 "Leeds" 2 1 None None "H")
              (55 # 100)%Q (25 # 100)%Q (20 # 100)%Q eq_refl eq_refl eq_refl)
    as (h & d & a & mx & _ & _ & _ & _ & _ & _ & _ & Hmx & _ & _ & _ & Hthird & _).
  exists mx. split; [exact Hmx|exact Hthird].
Defined.

(** ** Games fractions and prior rolling means *)

(** The games fraction of a row lies between 0 and 1: it is the number of
    earlier fixtures of the team on that side in the season over the
    window, 0 at the first of them and 1 from the window-th on. *)
Theorem games_fraction_bounds (s : side) (window : nat) (df : list Fixture.row)
    (i : nat) (r : Fixture.row) :
  0 < window -> df !! i = Some r ->
  let n := length (group_of (fun x => (Fixture.season x, team_name s x))
                     (Fixture.season r, team_name s r) (take i df)) in
  exists f : Q,
    recent_games_frac s window df !! i = Some (Some f) /\
    (0 <= f <= 1)%Q /\
    (n = 0 -> (f == 0)%Q) /\
    (window <= n -> (f == 1)%Q) /\
    (n <= window -> (f == inject_Z (Z.of_nat n) / inject_Z (Z.of_nat window))%Q).
Proof.
  intros Hw Hi n. exists (frac_of window n).
  assert (Hn : season_games s df !! i = Some n)
    by apply (cumcount_lookup (fun x => (Fixture.season x, team_name s x)) df i r Hi).
  pose proof (window_Q_pos window Hw) as Hwq.
  split; [unfold recent_games_frac; by rewrite list_lookup_fmap, Hn|].
  split; [by apply frac_bounds|]. unfold frac_of. split; [|split].
  - intros ->. cbn. field. lra.
  - intros Hge. replace (n `min` window) with window by lia. field. lra.
  - intros Hle. replace (n `min` window) with n by lia. reflexivity.
Qed.

Lemma games_fraction_bounds_witness :
  0 < 5 /\ demo_season !! 0 = Some (home_fixture 1 0%Q) /\
  exists f : Q, recent_games_frac Home 5 demo_season !! 0 = Some (Some f) /\ (f == 0)%Q.
Proof.
  assert (Hw : 0 < 5) by lia.
  assert (Hrow : demo_season !! 0 = Some (home_fixture 1 0%Q)) by reflexivity.
  split; [exact Hw|]. split; [exact Hrow|].
  destruct (games_fraction_bounds Home 5 demo_season 0 (home_fixture 1 0%Q) Hw Hrow)
    as (f & Hf & _ & Hzero & _).
  exists f. split; [exact Hf|]. apply Hzero. reflexivity.
Defined.

Lemma shift_lookup_S {V : Type} (s : list (option V)) (k : nat) :
  S k < length s -> shift s !! S k = s !! k.
Proof.
  intros Hk. destruct s as [|x s]; [cbn in Hk; lia|]. unfold shift.
  cbn [lookup list_lookup]. rewrite removelast_firstn_len.
  apply lookup_take_lt. cbn in *. lia.
Qed.

Lemma rolling_mean_length (w mp : nat) (s : list (option Q)) :
  length (rolling_mean w mp s) = length s.
Proof. unfold rolling_mean. apply length_imap. Qed.

Lemma window_at_lastn {V : Type} (w k : nat) (s : list V) :
  0 < w -> k < length s -> window_at w k s = lastn w (take (S k) s).
Proof.
  intros Hw Hk. unfold window_at, lastn. rewrite length_take.
  replace (k + 1) with (S k) by lia. f_equal. lia.
Qed.

Lemma present_snoc {V : Type} (l : list (option V)) (v : V) :
  present (l ++ [Some v]) = present l ++ [v].
Proof. unfold present. by rewrite omap_app. Qed.

Lemma lastn_snoc {V : Type} (w : nat) (l : list V) (c : V) :
  0 < w -> lastn w (l ++ [c]) = lastn (w - 1) l ++ [c].
Proof.
  intros Hw. unfold lastn. rewrite length_app. cbn [length].
  rewrite drop_app_le by lia. do 2 f_equal. lia.
Qed.

(** The prior rolling mean of a row is the mean of the observations among
    the [window] most recent earlier rows of the same team: the row's own
    value and later rows do not enter it.  Only when there is no such
    observation is it the median of the whole column, or 0 when the column
    has none. *)
Theorem prior_rolling_mean_value {A : Type} (df : list A) (team_col : A -> string)
    (value_col : A -> option Q) (window : nat) (i : nat) (r : A) :
  0 < window -> df !! i = Some r ->
  _prior_rolling_mean df team_col value_col window !! i
  = Some (match present (lastn window
                           (value_col <$> group_of team_col (team_col r) (take i df))) with
          | [] => default 0%Q (median (value_col <$> df))
          | obs => Qmean obs
          end).
Proof.
  intros Hw Hi. unfold _prior_rolling_mean.
  rewrite lookup_zip_with, list_lookup_fmap.
  rewrite !(groupby_transform_lookup _ _ _ _ _ _ Hi).
  cbv beta. cbn [fmap option_fmap option_map mbind option_bind].
  pose proof (group_count_bound team_col df i r Hi) as Hk.
  set (s := value_col <$> group_of team_col (team_col r) df) in *.
  assert (Hlen : length s = length (group_of team_col (team_col r) df))
    by (subst s; apply length_fmap).
  rewrite <- Hlen in Hk.
  assert (Hprior : value_col <$> group_of team_col (team_col r) (take i df)
                   = take (length (group_of team_col (team_col r) (take i df))) s).
  { subst s. by rewrite <- fmap_take, group_of_take. }
  rewrite Hprior.
  destruct (length (group_of team_col (team_col r) (take i df))) as [|k].
  - rewrite !shift_lookup_0. cbn. by destruct (median (value_col <$> df)).
  - rewrite !shift_lookup_S by (by rewrite ?rolling_mean_length).
    unfold rolling_mean. rewrite list_lookup_imap.
    destruct (s !! k) as [c|] eqn:Hc; [|apply lookup_ge_None in Hc; lia].
    cbn [fmap option_fmap option_map default from_option id].
    rewrite window_at_lastn by (done || lia).
    rewrite (take_S_r _ _ _ Hc), lastn_snoc by done.
    destruct c as [v|].
    + rewrite present_snoc.
      destruct (present (lastn (window - 1) (take k s))) as [|q obs];
        cbn [app length]; [by rewrite decide_True by lia|].
      rewrite decide_True by (rewrite length_app; cbn; lia). done.
    + assert (Hp : present (lastn (window - 1) (take k s) ++ [None])
                   = present (lastn (window - 1) (take k s))).
      { unfold present. rewrite omap_app. cbn. by rewrite app_nil_r. }
      rewrite Hp.
      destruct (present (lastn (window - 1) (take k s))) as [|q obs]; cbn [length].
      * rewrite decide_False by lia. cbn. by destruct (median (value_col <$> df)).
      * rewrite decide_True by lia. done.
Qed.

Lemma prior_rolling_mean_value_witness :
  0 < 5 /\ demo_shots !! 2 = Some ("Arsenal", Some 10%Q) /\
  _prior_rolling_mean demo_shots fst snd 5 !! 2 = Some (Qmean [12%Q]).
Proof.
  assert (Hw : 0 < 5) by lia.
  assert (Hrow : demo_shots !! 2 = Some ("Arsenal", Some 10%Q)) by reflexivity.
  split; [exact Hw|]. split; [exact Hrow|].
  exact (eq_trans
           (prior_rolling_mean_value demo_shots fst snd 5 2 ("Arsenal", Some 10%Q)
              Hw Hrow)
           eq_refl).
Defined.

(** ** Points percentage *)

Lemma rolling_sum_shift_raw (w : nat) (s : list (option Q)) (k : nat) :
  0 < w -> k < length s ->
  default None (rolling_sum w 1 (shift s) !! k)
  = match present (lastn w (take k s)) with
    | [] => None
    | obs => Some (Qsum obs)
    end.
Proof.
  intros Hw Hk. unfold rolling_sum. rewrite list_lookup_imap.
  destruct (lookup_lt_is_Some_2 (shift s) k) as [x ->];
    [by rewrite shift_length|].
  cbn. rewrite window_shift by done.
  destruct (present (lastn w (take k s))) as [|q obs]; [done|].
  rewrite decide_True by (cbn; lia). done.
Qed.

Lemma present_all_Some {V W : Type} (f : V -> W) (l : list V) :
  present ((fun x => Some (f x)) <$> l) = f <$> l.
Proof. unfold present. induction l as [|x l IH]; [done|]. cbn. by rewrite IH. Qed.

Lemma lastn_fmap {V W : Type} (f : V -> W) (w : nat) (l : list V) :
  lastn w (f <$> l) = f <$> lastn w l.
Proof. unfold lastn. by rewrite length_fmap, fmap_drop. Qed.

Lemma lastn_length {V : Type} (w : nat) (l : list V) :
  length (lastn w l) = length l `min` w.
Proof. unfold lastn. rewrite length_drop. lia. Qed.

Lemma Qsum_points_bounds (l : list Long.row) :
  (forall r : Long.row, r ∈ l -> (0 <= Long.points r <= 3)%Z) ->
  (0 <= Qsum ((fun r : Long.row => inject_Z (Long.points r)) <$> l)
   <= inject_Z (Z.of_nat (3 * length l)))%Q.
Proof.
  induction l as [|x l IH]; intros Hl.
  - split; apply Qle_refl.
  - destruct IH as [IH0 IH3]; [intros r Hr; apply Hl; by right|].
    destruct (Hl x ltac:(left)) as [Hx0 Hx3].
    rewrite Zle_Qle in Hx0, Hx3. rewrite fmap_cons. cbn [Qsum foldr length].
    fold (Qsum ((fun r : Long.row => inject_Z (Long.points r)) <$> l)).
    replace (3 * S (length l)) with (3 + 3 * length l) by lia.
    rewrite Nat2Z.inj_add, inject_Z_plus.
    change (inject_Z (Z.of_nat 3)) with 3%Q. change (inject_Z 0) with 0%Q in Hx0.
    change (inject_Z 3) with 3%Q in Hx3. lra.
Qed.

Lemma view_row_points (matches : list Matches.row) (r : Long.row) :
  r ∈ compute_team_view matches -> (0 <= Long.points r <= 3)%Z.
Proof.
  intros Hr. destruct (view_row_source matches r Hr) as (m & _ & [-> | ->]); cbn;
    destruct (outcome_points_cases (Matches.match_outcome_code m))
      as [-> | [-> | ->]]; cbn; lia.
Qed.

Lemma pct_cols_elem (long_df : list Long.row) (w : nat) :
  w ∈ windows ->
  ("points_pct_last_" +:+ pretty w, points_pct_col w long_df) ∈ added_cols long_df.
Proof.
  intros Hw. unfold added_cols. apply elem_of_app. right. apply elem_of_app. right.
  unfold pct_cols.
  apply (list_elem_of_fmap_2
           (fun w => ("points_pct_last_" +:+ pretty w, points_pct_col w long_df)) _ _ Hw).
Qed.

(** In the team view the points percentage over a window is defined at
    every row and lies between 0 and 1: the points of the (at most W) prior
    appearances over three times their number, and 0 at the first
    appearance of a team, where the denominator is guarded. *)
Theorem points_pct_bounded (matches : list Matches.row) (i : nat) (r : Rolling.row)
    (w : nat) :
  w ∈ windows ->
  add_rolling_features (compute_team_view matches) !! i = Some r ->
  exists pct : Q,
    Rolling.added r !! ("points_pct_last_" +:+ pretty w) = Some pct /\
    (0 <= pct <= 1)%Q /\
    (Long.match_number r = 0 -> pct = 0%Q) /\
    (Long.match_number r <> 0 ->
     forall total, Rolling.added r !! new_col "points" w = Some total ->
       pct = (total / inject_Z (Z.of_nat (3 * (Long.match_number r `min` w))))%Q).
Proof.
  intros Hw Hr. set (view := compute_team_view matches) in *.
  pose proof (windows_pos w Hw) as Hwpos.
  assert (Hx : exists x, view !! i = Some x /\ Rolling.long r = fillna_row x).
  { unfold add_rolling_features in Hr. rewrite list_lookup_imap in Hr.
    destruct (view !! i) as [x|]; [|done]. cbn [fmap option_fmap option_map] in Hr.
    apply (inj Some) in Hr. exists x. split; [done|]. by rewrite <- Hr. }
  destruct Hx as (x & Hx & Hlong).
  assert (Hmn : Long.match_number r = Long.match_number x) by (by rewrite Hlong).
  pose proof (compute_team_view_count matches i x Hx) as Hcount. fold view in Hcount.
  set (prior := group_of (fun y : Long.row => Long.team_id y) (Long.team_id x)
                  (take i view)) in *.
  set (pts := fun y : Long.row => inject_Z (Long.points y)).
  assert (Hraw : default None
                   (last_col (fun y : Long.row => Some (inject_Z (Long.points y))) w view !! i)
                 = match pts <$> lastn w prior with
                   | [] => None
                   | obs => Some (Qsum obs)
                   end).
  { unfold last_col. rewrite (groupby_transform_lookup _ _ _ _ _ _ Hx).
    cbv beta. cbn [default from_option id].
    rewrite rolling_sum_shift_raw; [|done|].
    - rewrite <- fmap_take, group_of_take. fold prior.
      by rewrite lastn_fmap, (present_all_Some pts).
    - rewrite length_fmap.
      apply (group_count_bound (fun y : Long.row => Long.team_id y) _ _ _ Hx). }
  assert (Hbounds : (0 <= Qsum (pts <$> lastn w prior)
                     <= inject_Z (Z.of_nat (3 * (length prior `min` w))))%Q).
  { rewrite <- lastn_length. apply Qsum_points_bounds. intros y Hy.
    apply (view_row_points matches). unfold lastn in Hy.
    apply list_elem_of_lookup in Hy as [j Hj]. rewrite lookup_drop in Hj.
    apply list_elem_of_lookup_2 in Hj. unfold prior, group_of in Hj.
    apply list_elem_of_filter in Hj as [_ Hj].
    apply elem_of_take in Hj as (j' & Hj' & _).
    by apply list_elem_of_lookup_2 in Hj'. }
  rewrite (added_lookup view i r _ _ Hr (pct_cols_elem view w Hw)).
  rewrite (added_lookup view i r _ _ Hr
             (rolling_cols_elem view "points"
                (fun y : Long.row => Some (inject_Z (Long.points y))) w
                ltac:(left) Hw)).
  unfold points_pct_col. rewrite lookup_zip_with, Hx.
  cbn [mbind option_bind].
  destruct (last_col (fun y : Long.row => Some (inject_Z (Long.points y))) w view !! i)
    as [c|] eqn:Hc; cbn [mbind option_bind default from_option id] in *.
  2:{ apply lookup_ge_None in Hc. apply lookup_lt_Some in Hx.
      unfold last_col, groupby_transform in Hc. rewrite length_imap in Hc. lia. }
  eexists. split; [reflexivity|]. rewrite Hmn, Hcount.
  destruct (decide (3 * (length prior `min` w) = 0)) as [Hz|Hnz].
  - cbn. split; [lra|]. split; [done|]. intros Hne. lia.
  - assert (Hpos : (0 < inject_Z (Z.of_nat (3 * (length prior `min` w))))%Q).
    { change 0%Q with (inject_Z 0). rewrite <- Zlt_Qlt. lia. }
    assert (Hobs : pts <$> lastn w prior <> []).
    { intros Hnil. apply (f_equal length) in Hnil.
      rewrite length_fmap, lastn_length in Hnil. cbn in Hnil. lia. }
    rewrite Hraw. destruct (pts <$> lastn w prior) as [|q obs] eqn:Hl; [done|].
    cbn [fmap option_fmap option_map fillna default from_option id].
    split; [split|split].
    + apply Qle_shift_div_l; [done|]. lra.
    + apply Qle_shift_div_r; [done|]. lra.
    + intros Hz. lia.
    + intros _ total [= <-]. done.
Qed.

Lemma points_pct_bounded_witness :
  5 ∈ windows /\
  add_rolling_features (compute_team_view demo_matches) !! 2 = Some demo_rolling /\
  exists pct : Q,
    Rolling.added demo_rolling !! "points_pct_last_5" = Some pct /\ (0 <= pct <= 1)%Q.
Proof.
  assert (Hw : 5 ∈ windows) by (right; left).
  assert (Hrow : add_rolling_features (compute_team_view demo_matches) !! 2
                 = Some demo_rolling) by (vm_compute; reflexivity).
  split; [exact Hw|]. split; [exact Hrow|].
  destruct (points_pct_bounded demo_matches 2 demo_rolling 5 Hw Hrow)
    as (pct & Hpct & Hb & _).
  exists pct. split; [exact Hpct|exact Hb].
Defined.

(** ** Rest days *)

Lemma StronglySorted_take {A : Type} (R : relation A) (l : list A) (i : nat) :
  StronglySorted R l -> StronglySorted R (take i l).
Proof.
  intros Hs. rewrite <- (take_drop i l) in Hs. by apply StronglySorted_app_1_l in Hs.
Qed.

Lemma StronglySorted_filter {A : Type} (R : relation A) (P : A -> Prop)
    `{!forall x, Decision (P x)} (l : list A) :
  StronglySorted R l -> StronglySorted R (filter P l).
Proof.
  induction 1 as [|x l Hl IH Hx]; [constructor|].
  rewrite filter_cons. case_decide; [|done]. constructor; [done|].
  apply Forall_forall. intros y Hy. apply list_elem_of_filter in Hy as [_ Hy].
  rewrite Forall_forall in Hx. by apply Hx.
Qed.

Lemma last_snoc_inv {A : Type} (l : list A) (x : A) :
  last l = Some x -> exists l', l = l' ++ [x].
Proof.
  intros Hl. destruct (decide_rel (=) (length l) 0) as [Hz|Hnz].
  - destruct l; [done|cbn in Hz; lia].
  - induction l as [|y l IH] using rev_ind; [done|].
    rewrite last_snoc in Hl. injection Hl as ->. by exists l.
Qed.

(** The rest days of a row of the team view are the time since the most
    recent earlier appearance of the team, in days, and so never negative;
    they are missing exactly at the first appearance of a team. *)
Theorem view_rest_days (matches : list Matches.row) (i : nat) (r : Long.row) :
  compute_team_view matches !! i = Some r ->
  let earlier := group_of Long.team_id (Long.team_id r) (take i (long_frame matches)) in
  (Long.match_number r = 0 <-> Long.rest_days r = None) /\
  (forall d, Long.rest_days r = Some d ->
     (0 <= d)%Q /\
     exists p : Long.base,
       p ∈ earlier /\
       d = ((Long.match_datetime_utc r - Long.match_datetime_utc p)%Z # 86400)%Q /\
       forall q : Long.base, q ∈ earlier ->
         (Long.match_datetime_utc q <= Long.match_datetime_utc p)%Z).
Proof.
  intros Hi earlier.
  assert (Hr : Long.rest_days r = rest_days_of (long_frame matches) i r /\
               Long.match_number r = length earlier /\
               long_frame matches !! i = Some (Long.cols r)).
  { unfold compute_team_view in Hi. fold (long_frame matches) in Hi.
    rewrite list_lookup_imap in Hi.
    destruct (long_frame matches !! i) as [b|]; [|done].
    cbn in Hi. injection Hi as <-. done. }
  destruct Hr as (Hrest & Hmn & Hb). rewrite Hrest, Hmn. unfold rest_days_of.
  fold earlier. split.
  - destruct earlier as [|e l] eqn:He; [done|]. split; [done|].
    destruct (last (e :: l)) eqn:Hlast; [done|].
    apply last_None in Hlast. done.
  - intros d Hd. destruct (last earlier) as [p|] eqn:Hlast; [|done].
    injection Hd as <-.
    destruct (last_snoc_inv _ _ Hlast) as (l' & Hl').
    assert (Hsorted : StronglySorted key_le earlier).
    { apply StronglySorted_filter, StronglySorted_take, sort_values_sorted. }
    assert (Hp : p ∈ earlier) by (rewrite Hl'; apply elem_of_app; right; left).
    assert (Hteam : forall q, q ∈ earlier -> Long.team_id q = Long.team_id r).
    { intros q Hq. unfold earlier, group_of in Hq.
      by apply list_elem_of_filter in Hq as [? _]. }
    assert (Hle : (Long.match_datetime_utc p <= Long.match_datetime_utc r)%Z).
    { unfold earlier, group_of in Hp. apply list_elem_of_filter in Hp as [Ht Hp].
      apply elem_of_take in Hp as (j & Hj & Hlt).
      pose proof (StronglySorted_lookup key_le _ j i _ _
                    (sort_values_sorted _) Hlt Hj Hb) as [?|[_ ?]]; lia. }
    split; [unfold Qle; cbn; lia|]. exists p. split; [done|]. split; [done|].
    intros q Hq. pose proof (Hteam q Hq) as Hqt. pose proof (Hteam p Hp) as Hpt.
    rewrite Hl' in Hq, Hsorted. apply elem_of_app in Hq as [Hq|Hq].
    + pose proof (StronglySorted_app_1_elem_of _ _ _ _ _ Hsorted Hq
                    ltac:(left)) as [?|[_ ?]]; lia.
    + apply list_elem_of_singleton in Hq as ->. lia.
Qed.

Lemma view_rest_days_witness :
  compute_team_view demo_matches !! 2 = Some demo_third /\
  Long.rest_days demo_third = Some (100 # 86400)%Q /\
  (0 <= 100 # 86400)%Q.
Proof.
  assert (Hrow : compute_team_view demo_matches !! 2 = Some demo_third)
    by (vm_compute; reflexivity).
  split; [exact Hrow|]. split; [reflexivity|].
  exact (proj1 (proj2 (view_rest_days demo_matches 2 demo_third Hrow)
                  (100 # 86400)%Q eq_refl)).
Defined.

Lemma view_row_rest (matches : list Matches.row) (j : nat) (g : Long.row) :
  compute_team_view matches !! j = Some g ->
  (Long.match_number g = 0 -> Long.rest_days g = None) /\
  (forall d, Long.rest_days g = Some d -> (0 <= d)%Q).
Proof.
  intros Hj. destruct (compute_team_view_lookup _ _ _ Hj) as [Hb Hmn].
  assert (Hrest : Long.rest_days g = rest_days_of (long_frame matches) j g).
  { unfold compute_team_view in Hj. fold (long_frame matches) in Hj.
    rewrite list_lookup_imap in Hj.
    destruct (long_frame matches !! j) as [b|]; [|done].
    cbn in Hj. injection Hj as <-. done. }
  rewrite Hrest, Hmn. unfold rest_days_of. split.
  - intros Hz. by destruct (group_of _ _ _).
  - intros d Hd.
    destruct (last (group_of Long.team_id (Long.team_id g) (take j (long_frame matches))))
      as [p|] eqn:Hlast; [|done].
    injection Hd as <-. destruct (last_snoc_inv _ _ Hlast) as (l' & Hl').
    assert (Hp : p ∈ group_of Long.team_id (Long.team_id g) (take j (long_frame matches)))
      by (rewrite Hl'; apply elem_of_app; right; left).
    unfold group_of in Hp. apply list_elem_of_filter in Hp as [Ht Hp].
    apply elem_of_take in Hp as (k & Hk & Hlt).
    pose proof (StronglySorted_lookup key_le _ k j _ _
                  (sort_values_sorted _) Hlt Hk Hb) as [?|[_ ?]];
      unfold Qle; cbn; lia.
Qed.

Lemma filter_lookup_0 {A : Type} (P : A -> Prop) `{!forall x, Decision (P x)}
    (l : list A) (g : A) :
  filter P l !! 0 = Some g ->
  exists j, l !! j = Some g /\ P g /\ filter P (take j l) = [].
Proof.
  induction l as [|x l IH]; [done|]. rewrite filter_cons.
  destruct (decide (P x)) as [HP|HP].
  - cbn. intros [= <-]. by exists 0.
  - intros Hg. destruct (IH Hg) as (j & Hj & Hpg & Hnil). exists (S j).
    split; [done|]. split; [done|]. cbn [take]. by rewrite filter_cons_False.
Qed.

Lemma rest_cols_elem (long_df : list Long.row) :
  ("rest_days_prev", Some <$> rest_days_prev long_df) ∈ added_cols long_df /\
  ("rest_days_capped", (fun x => Some (Qmin x 28)) <$> rest_days_prev long_df)
    ∈ added_cols long_df /\
  ("rest_reset_flag",
   (fun x => Some (if Qlt_le_dec 35 x then 1%Q else 0%Q)) <$> rest_days_prev long_df)
    ∈ added_cols long_df.
Proof.
  unfold added_cols, rest_cols. rewrite !elem_of_app.
  split; [|split]; right; left.
  - left.
  - right. left.
  - right. right. left.
Qed.

(** The rest columns of the team view after [add_rolling_features]: the
    previous rest is never negative, the capped rest is its minimum with 28
    (so within 0 and 28), the reset flag is 1 exactly when the previous rest
    exceeds 35 days and 0 otherwise; at the first two appearances of a team
    the previous rest is 0 and the flag is off. *)
Theorem rest_columns (matches : list Matches.row) (i : nat) (r : Rolling.row) :
  add_rolling_features (compute_team_view matches) !! i = Some r ->
  exists prev : Q,
    Rolling.added r !! "rest_days_prev" = Some prev /\ (0 <= prev)%Q /\
    Rolling.added r !! "rest_days_capped" = Some (Qmin prev 28) /\
    (0 <= Qmin prev 28 <= 28)%Q /\
    Rolling.added r !! "rest_reset_flag"
    = Some (if Qlt_le_dec 35 prev then 1%Q else 0%Q) /\
    (Long.match_number r <= 1 ->
     prev = 0%Q /\ Rolling.added r !! "rest_reset_flag" = Some 0%Q).
Proof.
  intros Hr. set (view := compute_team_view matches) in *.
  assert (Hx : exists x, view !! i = Some x /\ Rolling.long r = fillna_row x).
  { unfold add_rolling_features in Hr. rewrite list_lookup_imap in Hr.
    destruct (view !! i) as [x|]; [|done]. cbn [fmap option_fmap option_map] in Hr.
    apply (inj Some) in Hr. exists x. split; [done|]. by rewrite <- Hr. }
  destruct Hx as (x & Hx & Hlong).
  assert (Hmn : Long.match_number r = Long.match_number x) by (by rewrite Hlong).
  pose proof (compute_team_view_count matches i x Hx) as Hcount. fold view in Hcount.
  set (team := fun y : Long.row => Long.team_id y) in *.
  set (group := group_of team (Long.team_id x) view).
  set (k := length (group_of team (Long.team_id x) (take i view))) in *.
  set (prev := fillna 0%Q (default None (shift (Long.rest_days <$> group) !! k))).
  assert (Hprev : rest_days_prev view !! i = Some prev).
  { unfold rest_days_prev. rewrite list_lookup_fmap.
    by rewrite (groupby_transform_lookup team Long.rest_days shift view i x Hx). }
  destruct (rest_cols_elem view) as (E1 & E2 & E3).
  exists prev.
  rewrite (added_lookup view i r _ _ Hr E1), (added_lookup view i r _ _ Hr E2),
    (added_lookup view i r _ _ Hr E3).
  rewrite !list_lookup_fmap, Hprev. cbn [fmap option_fmap option_map default from_option id fillna].
  assert (Hk : k < length group)
    by apply (group_count_bound team view i x Hx).
  assert (Hcases : (k <= 1 -> prev = 0%Q) /\ (0 <= prev)%Q).
  { subst prev. destruct k as [|k'].
    - rewrite shift_lookup_0. split; [done|]. cbn. lra.
    - rewrite shift_lookup_S by (by rewrite length_fmap). rewrite list_lookup_fmap.
      destruct (group !! k') as [g|] eqn:Hg; [|apply lookup_ge_None in Hg; lia].
      cbn [fmap option_fmap option_map default from_option id].
      assert (Hgv : exists j, view !! j = Some g).
      { apply list_elem_of_lookup. apply list_elem_of_lookup_2 in Hg.
        unfold group, group_of in Hg. by apply list_elem_of_filter in Hg as [_ ?]. }
      destruct Hgv as (j & Hj). destruct (view_row_rest matches j g Hj) as [Hfirst Hnn].
      split.
      + intros Hle. assert (k' = 0) as -> by lia.
        destruct (filter_lookup_0 _ _ _ Hg) as (j0 & Hj0 & Ht & Hnil).
        destruct (view_row_rest matches j0 g Hj0) as [Hfirst0 _].
        rewrite Hfirst0; [done|].
        rewrite (compute_team_view_count matches j0 g Hj0). fold view team.
        unfold group_of. unfold team in Ht. rewrite Ht. fold team.
        by rewrite Hnil.
      + destruct (Long.rest_days g) as [d|]; cbn; [by apply Hnn|lra]. }
  destruct Hcases as [Hfirst Hnn].
  split; [done|]. split; [done|]. split; [done|]. split.
  { split; [apply Q.min_glb; [done|lra]|apply Q.le_min_r]. }
  split; [done|]. intros Hle. rewrite Hmn, Hcount in Hle. fold k in Hle.
  rewrite (Hfirst Hle). split; [done|]. by destruct (Qlt_le_dec 35 0).
Qed.

Lemma rest_columns_witness :
  add_rolling_features (compute_team_view demo_matches) !! 2 = Some demo_rolling /\
  exists prev : Q,
    Rolling.added demo_rolling !! "rest_days_prev" = Some prev /\ (0 <= prev)%Q.
Proof.
  assert (Hrow : add_rolling_features (compute_team_view demo_matches) !! 2
                 = Some demo_rolling) by (vm_compute; reflexivity).
  split; [exact Hrow|].
  destruct (rest_columns demo_matches 2 demo_rolling Hrow) as (prev & Hp & Hnn & _).
  exists prev. split; [exact Hp|exact Hnn].
Defined.

(** ** Outcome columns and targets *)

(** The outcome columns of the cleaner, the targets of [add_targets] and
    the point rule of the team view agree: exactly one of the three flags
    is set, the points actually won are the points [outcome_points] gives
    for the code, the home side has 3 points exactly when it scored more,
    1 exactly when the goals are level, and the outcome id is 2, 1 or 0 for
    a home win, a draw or an away win. *)
Theorem targets_agree_with_points (home_goals away_goals : Z) :
  let o := outcome_columns home_goals away_goals in
  (home_win_flag o + draw_flag o + away_win_flag o = 1)%Z /\
  outcome_points (match_outcome_code o) = (home_points_actual o, away_points_actual o) /\
  (home_points_actual o = 3%Z <-> (away_goals < home_goals)%Z) /\
  (home_points_actual o = 1%Z <-> home_goals = away_goals) /\
  (away_points_actual o = 3%Z <-> (home_goals < away_goals)%Z) /\
  outcome_id (match_outcome_code o)
  = Some (if (away_goals <? home_goals)%Z then 2
          else if (home_goals <? away_goals)%Z then 0 else 1)%Z.
Proof.
  intros o. subst o. unfold outcome_columns, compute_outcome.
  destruct (away_goals <? home_goals)%Z eqn:Hh.
  - apply Z.ltb_lt in Hh. cbn. repeat split; try done; lia.
  - apply Z.ltb_ge in Hh. destruct (home_goals <? away_goals)%Z eqn:Ha.
    + apply Z.ltb_lt in Ha. cbn. repeat split; try done; lia.
    + apply Z.ltb_ge in Ha. cbn. repeat split; try done; lia.
Qed.

(** ** Shrinkage *)

Lemma smoothed_value (sum_name : string) (s : side) (window : nat)
    (df : list Fixture.row) (i : nat) (r : Fixture.row) (total : Q) :
  0 < window -> df !! i = Some r ->
  Fixture.cells r !! sum_name ≫= numeric = Some total ->
  let n := length (group_of (fun x => (Fixture.season x, team_name s x))
                     (Fixture.season r, team_name s r) (take i df)) in
  n <> 0 ->
  exists v : Q,
    smoothed_column sum_name s window df !! i = Some (Some v) /\
    (v == frac_of window n * (total / inject_Z (Z.of_nat (n `min` window)))
          + (1 - frac_of window n) * global_prior_mean sum_name s window df)%Q.
Proof.
  intros Hw Hi Hsum n Hn.
  rewrite (smoothed_column_lookup sum_name s window df i r Hi). fold n.
  eexists. split; [reflexivity|].
  pose proof (smoothed_prior sum_name s window df Hw) as Hprior.
  pose proof (frac_clip window Hw n) as Hclip.
  pose proof (window_Q_pos window Hw) as Hwq.
  rewrite Hsum. cbn.
  rewrite (games_zero window Hw n), bool_decide_eq_false_2 by lia. cbn.
  rewrite Hclip, Hprior. unfold frac_of. field. split; [lra|].
  intros E. unfold Qeq in E. cbn in E. lia.
Qed.

(** Shrinkage never overshoots: the smoothed average of a row lies between
    its own per-match rate and the dataset prior, and once the team has
    played a full window of games it is the per-match rate itself. *)
Theorem smoothed_average_between (sum_name : string) (s : side) (window : nat)
    (df : list Fixture.row) (i : nat) (r : Fixture.row) (total : Q) :
  0 < window -> df !! i = Some r ->
  Fixture.cells r !! sum_name ≫= numeric = Some total ->
  let n := length (group_of (fun x => (Fixture.season x, team_name s x))
                     (Fixture.season r, team_name s r) (take i df)) in
  n <> 0 ->
  let rate := (total / inject_Z (Z.of_nat (n `min` window)))%Q in
  let prior := global_prior_mean sum_name s window df in
  exists v : Q,
    smoothed_column sum_name s window df !! i = Some (Some v) /\
    (Qmin rate prior <= v <= Qmax rate prior)%Q /\
    (window <= n -> (v == rate)%Q).
Proof.
  intros Hw Hi Hsum n Hn rate prior.
  destruct (smoothed_value sum_name s window df i r total Hw Hi Hsum Hn)
    as (v & Hv & Heq).
  fold n rate prior in Heq. exists v. split; [exact Hv|].
  destruct (frac_bounds window Hw n) as [Hf0 Hf1].
  set (a := frac_of window n) in *. split.
  - destruct (Qlt_le_dec rate prior) as [Hlt|Hle].
    + rewrite Q.min_l, Q.max_r by lra.
      assert (H1 : (0 <= (1 - a) * (prior - rate))%Q)
        by (apply Qmult_le_0_compat; lra).
      assert (H2 : (0 <= a * (prior - rate))%Q)
        by (apply Qmult_le_0_compat; lra).
      assert (E1 : (v - rate == (1 - a) * (prior - rate))%Q) by (rewrite Heq; ring).
      assert (E2 : (prior - v == a * (prior - rate))%Q) by (rewrite Heq; ring).
      lra.
    + rewrite Q.min_r, Q.max_l by lra.
      assert (H1 : (0 <= (1 - a) * (rate - prior))%Q)
        by (apply Qmult_le_0_compat; lra).
      assert (H2 : (0 <= a * (rate - prior))%Q)
        by (apply Qmult_le_0_compat; lra).
      assert (E1 : (rate - v == (1 - a) * (rate - prior))%Q) by (rewrite Heq; ring).
      assert (E2 : (v - prior == a * (rate - prior))%Q) by (rewrite Heq; ring).
      lra.
  - intros Hfull. rewrite Heq.
    assert (Ea : (a == 1)%Q).
    { subst a. unfold frac_of. replace (n `min` window) with window by lia.
      pose proof (window_Q_pos window Hw). field. lra. }
    rewrite Ea. ring.
Qed.

Lemma smoothed_average_between_witness :
  0 < 5 /\ demo_season !! 2 = Some (home_fixture 3 6%Q) /\
  exists v : Q,
    smoothed_column "home_goals_for_last_5" Home 5 demo_season !! 2 = Some (Some v).
Proof.
  assert (Hw : 0 < 5) by lia.
  assert (Hrow : demo_season !! 2 = Some (home_fixture 3 6%Q)) by reflexivity.
  split; [exact Hw|]. split; [exact Hrow|].
  destruct (smoothed_average_between "home_goals_for_last_5" Home 5 demo_season 2
              (home_fixture 3 6%Q) 6%Q Hw Hrow eq_refl ltac:(discriminate))
    as (v & Hv & _).
  exists v. exact Hv.
Defined.
